(** * bctools: merge_pcr_duplicates.py

    A shallow embedding of the script [bin/merge_pcr_duplicates.py] and the
    properties of its load / join / filter / group / write pipeline.

    The script is a straight-line pandas program.  Each pandas call it makes
    is embedded as a function on explicit tables:

    - a DataFrame is a list of rows, in row order; where the script uses the
      row labels ([.index], [drop]) the labels are carried next to the rows;
    - an exception that the script or pandas raises is a value of [exn];
    - the loader [read_csv] is embedded on the text of the lines; it gives
      the cells as text or missing, before pandas types the columns;
    - pandas types a column by what it holds, and a cell can be missing.
      The tables after the loader are embedded twice.  First with the
      types that the data model gives them: text for [chrom], [read_id],
      [strand] and [bc], integers for [start] and [stop], no cell missing
      ([AlnRow], [JoinedRow], [merge], [collapse], [main]); the filter, the
      writer and the invariance of the grouping are stated there.  Then
      with columns of any type and cells that can be missing
      ([alignments], [AlnCells], [pd_merge], [groupby_dropna], [run]): what
      depends on the type of a column or on a missing cell (which rows are
      counted, the order of the output, the errors of the join) is stated
      there.  [collapse_as_frame] and [merge_as_frame] relate the two;
      [type_alignments] types the loaded cells where what pandas does is
      beyond doubt, and [script] runs the whole from the lines of the file.

    The logging calls of the script report counts and never change the
    control flow: [main] leaves them out, [run] gives the two messages of
    lines 108-124 next to the counts. *)

From Stdlib Require Import Ascii String.
From stdpp Require Import base list strings sorting lexico gmap pretty.

(** ** Exceptions *)

Inductive label : Type :=
| Name (s : string)   (* a column called by a text label *)
| Level (n : nat).    (* a column called by an integer label *)

Inductive exn : Type :=
| Exception (msg : string)
| ParserError (expected line saw : nat)
| KeyError (column : label).

Global Instance label_eq_dec : EqDecision label.
Proof. solve_decision. Defined.

(** ** Ordering of text and of group keys

    Python compares [str] values code point by code point; on the byte
    strings of Rocq that is [String.compare].  [groupby] orders the groups
    by the key columns from left to right, which is the lexicographic
    order of stdpp on nested pairs. *)

Global Instance string_lexico : Lexico string :=
  λ s1 s2, String.compare s1 s2 = Lt.

Global Instance string_lexico_trichotomy : TrichotomyT (@lexico string _).
Proof.
  red; refine (λ s1 s2,
    match String.compare s1 s2 as c return String.compare s1 s2 = c → _ with
    | Lt => λ H, inleft (left H)
    | Eq => λ H, inleft (right (String.compare_eq_iff _ _ H))
    | Gt => λ H, inright _
    end eq_refl).
  unfold lexico, string_lexico.
  rewrite String.compare_antisym, H. reflexivity.
Defined.

(** ** groupby(...).size()

    [df.groupby(keys).size()] with the defaults ([sort=True]) yields one
    entry per distinct key that occurs in the frame, ordered by key, whose
    value is the number of rows with that key.  It leaves out the rows
    with a missing value in a key column: [groupby_size] is given the keys
    of the rows that have all their key cells.  [group_keys] computes the
    sorted distinct keys, [group_size] counts the rows of a key. *)

Section groupby.
Context {K : Type} `{Lexico K, !TrichotomyT (@lexico K _), !EqDecision K}.

Fixpoint insert_key (k : K) (ks : list K) : list K :=
  match ks with
  | [] => [k]
  | k' :: ks' =>
      match trichotomyT lexico k k' with
      | inleft (left _) => k :: k' :: ks'
      | inleft (right _) => k' :: ks'
      | inright _ => k' :: insert_key k ks'
      end
  end.

Definition group_keys (ks : list K) : list K := foldr insert_key [] ks.

Definition group_size (k : K) (ks : list K) : nat :=
  length (filter (k =.) ks).

Definition groupby_size (ks : list K) : list (K * nat) :=
  (λ k, (k, group_size k ks)) <$> group_keys ks.

(** The keys of a series, each repeated as often as its count says. *)
Definition repeat_keys (out : list (K * nat)) : list K :=
  out ≫= λ kn, replicate kn.2 kn.1.

End groupby.

(** ** The tables of the script, typed as in the data model *)

(** A Biopython [SeqRecord], as far as the script reads it. *)
Module SeqRecord.
Record t : Type := mk {
  id : string;
  seq : string
}.
End SeqRecord.

(** [bcs]: columns [read_id], [bc]. *)
Record BcRow : Type := mkBcRow {
  bcs_read_id : string;
  bcs_bc : string
}.

(** [alns]: columns [chrom], [start], [stop], [read_id], [score],
    [strand].  The score is carried along and never read. *)
Record AlnRow : Type := mkAlnRow {
  alns_chrom : string;
  alns_start : Z;
  alns_stop : Z;
  alns_read_id : string;
  alns_score : string;
  alns_strand : string
}.

(** [bcalib]: the join column, then the other columns of the left frame,
    then those of the right frame. *)
Record JoinedRow : Type := mkJoinedRow {
  read_id : string;
  bc : string;
  chrom : string;
  start : Z;
  stop : Z;
  score : string;
  strand : string
}.

Global Instance BcRow_eq_dec : EqDecision BcRow.
Proof. solve_decision. Defined.
Global Instance AlnRow_eq_dec : EqDecision AlnRow.
Proof. solve_decision. Defined.
Global Instance JoinedRow_eq_dec : EqDecision JoinedRow.
Proof. solve_decision. Defined.

(** ** Loading the barcode library (lines 41-44 and 87-92)

    The generator ignores its parameter [fasta_iterator] and iterates over
    the global [input_seq_iterator]; the script passes that same global. *)

Definition fasta_tuple_generator
    (input_seq_iterator fasta_iterator : list SeqRecord.t)
    : list (string * string) :=
  (λ record, (SeqRecord.id record, SeqRecord.seq record)) <$> input_seq_iterator.

(** [pd.DataFrame.from_records(data, columns=["read_id", "bc"])]: one row
    per tuple, in order; nothing is deduplicated. *)
Definition from_records (data : list (string * string)) : list BcRow :=
  (λ t, mkBcRow t.1 t.2) <$> data.

Definition bcs (input_seq_iterator : list SeqRecord.t) : list BcRow :=
  from_records (fasta_tuple_generator input_seq_iterator input_seq_iterator).

(** ** Lines and fields

    A line of a tab-separated file is split at every separator; a line
    without a separator is one field. *)

Definition tab : ascii := "009"%char.
Definition newline : ascii := "010"%char.

Fixpoint split_fields (sep : ascii) (line : string) : list string :=
  match line with
  | "" => [""]
  | String c rest =>
      if decide (c = sep) then "" :: split_fields sep rest
      else match split_fields sep rest with
           | [] => [String c ""]
           | field :: fields => String c field :: fields
           end
  end.

(** ** Joining (lines 100-107)

    [pd.merge(bcs, alns, on="read_id", how="inner", sort=False)], when the
    [read_id] column of the alignments is held as text: one row per pair
    of a left row and a right row with the same [read_id].  The rows are
    listed by left row, then by right row; the rest of the script does not
    depend on that order. *)

Definition join_row (b : BcRow) (a : AlnRow) : JoinedRow :=
  mkJoinedRow (bcs_read_id b) (bcs_bc b) (alns_chrom a) (alns_start a)
    (alns_stop a) (alns_score a) (alns_strand a).

Definition merge (bcs : list BcRow) (alns : list AlnRow) : list JoinedRow :=
  b ← bcs;
  join_row b <$> filter (λ a, alns_read_id a = bcs_read_id b) alns.

(** The row labels of a fresh frame: 0, 1, 2, ... *)
Definition range_index {A} (rows : list A) : list (nat * A) :=
  imap (λ i r, (i, r)) rows.

Definition no_common_entries : exn :=
  Exception "ERROR: no common entries for alignments and barcode library found. Please check your input files.".

Definition bcalib (bcs : list BcRow) (alns : list AlnRow)
    : exn + list (nat * JoinedRow) :=
  let bcalib := merge bcs alns in
  if decide (bcalib = []) then inl no_common_entries
  else inr (range_index bcalib).

(** ** Removing barcodes with an uncalled base (lines 115-116)

    [bc.str.contains("N")] searches the pattern in each value; a pattern
    without special characters is found where it occurs as a substring.
    [frame[mask]] keeps the rows whose mask is true, [.index] gives their
    labels and [drop] removes the rows that carry one of the labels. *)

Fixpoint str_contains (pat s : string) : bool :=
  String.prefix pat s ||
  match s with
  | "" => false
  | String _ s' => str_contains pat s'
  end.

Definition boolean_index {A} (mask : A → bool) (frame : list (nat * A))
    : list (nat * A) :=
  filter (λ ir, mask ir.2 = true) frame.

Definition index {A} (frame : list (nat * A)) : list nat := frame.*1.

Definition drop_labels {A} (labels : list nat) (frame : list (nat * A))
    : list (nat * A) :=
  filter (λ ir, ir.1 ∉ labels) frame.

Definition bcalib_cleaned (bcalib : list (nat * JoinedRow))
    : list (nat * JoinedRow) :=
  drop_labels (index (boolean_index (λ r, str_contains "N" (bc r)) bcalib))
    bcalib.

(** The characters of a barcode, and the uncalled base. *)
Definition uncalled : ascii := "N"%char.

Definition has_uncalled (barcode : string) : Prop :=
  uncalled ∈ list_ascii_of_string barcode.

(** ** The library as a mapping

    The specification words the library as a mapping from read identifier
    to barcode in which a later record replaces an earlier one, and the
    join as a lookup in it.  These two definitions follow those words;
    they are compared with [bcs] and [merge] below. *)

Definition library_dict (records : list BcRow) : gmap string string :=
  foldl (λ m b, <[bcs_read_id b := bcs_bc b]> m) ∅ records.

Definition join_dict (library : gmap string string) (alns : list AlnRow)
    : list JoinedRow :=
  omap (λ a, (λ barcode, join_row (mkBcRow (alns_read_id a) barcode) a)
               <$> library !! alns_read_id a) alns.

(** ** Counting the duplicates (lines 126-129) *)

Definition key : Type := string * Z * Z * string * string.

Definition key_of (r : JoinedRow) : key :=
  (chrom r, start r, stop r, strand r, bc r).

(** [.groupby(['chrom', 'start', 'stop', 'strand', 'bc']).size()]: the
    collapse stage of the specification. *)
Definition collapse (cleaned : list JoinedRow) : list (key * nat) :=
  groupby_size (key_of <$> cleaned).

(** The order of the output as the specification words it: text order on
    [chrom], [strand] and [bc], numeric order on [start] and [stop], the
    columns compared from left to right. *)
Definition text_lt (s1 s2 : string) : Prop := String.compare s1 s2 = Lt.

Definition key_lt (k1 k2 : key) : Prop :=
  let '(c1, s1, e1, st1, b1) := k1 in
  let '(c2, s2, e2, st2, b2) := k2 in
  text_lt c1 c2 ∨ c1 = c2 ∧
  ((s1 < s2)%Z ∨ s1 = s2 ∧
  ((e1 < e2)%Z ∨ e1 = e2 ∧
  (text_lt st1 st2 ∨ st1 = st2 ∧ text_lt b1 b2))).

(** The re-expansion of the specification: each collapsed record stands
    for [ndupes] joined rows with its key; [fill] chooses the columns that
    the key does not fix, the read identifier and the score. *)
Definition expand_record (fill : key → string * string) (kn : key * nat)
    : list JoinedRow :=
  let '((c, s, e, st, b), n) := kn in
  replicate n (mkJoinedRow (fill kn.1).1 b c s e (fill kn.1).2 st).

Definition expand (fill : key → string * string) (out : list (key * nat))
    : list JoinedRow :=
  out ≫= expand_record fill.

Inductive cell : Type :=
| Text (s : string)
| Int (z : Z).

(** A frame whose columns are looked up by label: the labels of the
    columns, and the cells of each row in the order of the columns. *)
Record DataFrame : Type := mkDataFrame {
  df_columns : list label;
  df_rows : list (list cell)
}.

(** [.reset_index()]: the levels of the key become columns, and the counts
    a column labelled by the integer 0. *)
Definition reset_index (series : list (key * nat)) : DataFrame :=
  mkDataFrame
    [Name "chrom"; Name "start"; Name "stop"; Name "strand"; Name "bc";
     Level 0]
    ((λ kn, let '((c, s, e, st, b), n) := kn in
        [Text c; Int s; Int e; Text st; Text b; Int (Z.of_nat n)])
       <$> series).

(** [.rename(columns={0: 'ndupes'}, inplace=True)] *)
Definition rename (old new : label) (frame : DataFrame) : DataFrame :=
  mkDataFrame
    ((λ l, if decide (l = old) then new else l) <$> df_columns frame)
    (df_rows frame).

Definition merged (cleaned : list JoinedRow) : DataFrame :=
  rename (Level 0) (Name "ndupes") (reset_index (collapse cleaned)).

(** ** Writing (lines 131-137)

    [to_csv(out, columns=[...], sep="\t", index=False, header=False)]:
    one line per row, made of the cells of the given columns in the given
    order, separated by [sep] and ended by a newline.  A text cell that
    holds the separator, the quote character or the line terminator is
    written between quotes, its quotes doubled. *)

Definition quotechar : ascii := "034"%char.

Definition special (sep : ascii) (c : ascii) : bool :=
  bool_decide (c = sep) || bool_decide (c = quotechar) ||
  bool_decide (c = newline).

Fixpoint any_char (p : ascii → bool) (s : string) : bool :=
  match s with
  | "" => false
  | String c s' => p c || any_char p s'
  end.

Fixpoint double_quotes (s : string) : string :=
  match s with
  | "" => ""
  | String c s' =>
      if decide (c = quotechar) then String c (String c (double_quotes s'))
      else String c (double_quotes s')
  end.

Definition csv_field (sep : ascii) (s : string) : string :=
  if any_char (special sep) s
  then String quotechar (double_quotes s +:+ String quotechar "")
  else s.

Definition cell_text (c : cell) : string :=
  match c with
  | Text s => s
  | Int z => pretty z
  end.

Fixpoint get_column (l : label) (row : list (label * cell)) : exn + cell :=
  match row with
  | [] => inl (KeyError l)
  | (l', c) :: row' => if decide (l' = l) then inr c else get_column l row'
  end.

Fixpoint select_columns (columns : list label) (row : list (label * cell))
    : exn + list cell :=
  match columns with
  | [] => inr []
  | l :: columns' =>
      match get_column l row with
      | inl e => inl e
      | inr c =>
          match select_columns columns' row with
          | inl e => inl e
          | inr cs => inr (c :: cs)
          end
      end
  end.

(** A column that the frame does not have is a [KeyError], whether or not
    the frame has rows. *)
Fixpoint check_columns (columns : list label) (frame_columns : list label)
    : exn + unit :=
  match columns with
  | [] => inr ()
  | l :: columns' =>
      if decide (l ∈ frame_columns) then check_columns columns' frame_columns
      else inl (KeyError l)
  end.

Definition csv_line (sep : ascii) (cells : list cell) : string :=
  String.concat (String sep "") (csv_field sep ∘ cell_text <$> cells)
  +:+ String newline "".

Fixpoint write_rows (columns : list label) (sep : ascii)
    (frame_columns : list label) (rows : list (list cell)) : exn + string :=
  match rows with
  | [] => inr ""
  | row :: rows' =>
      match select_columns columns (zip frame_columns row) with
      | inl e => inl e
      | inr cells =>
          match write_rows columns sep frame_columns rows' with
          | inl e => inl e
          | inr out => inr (csv_line sep cells +:+ out)
          end
      end
  end.

Definition to_csv (columns : list label) (sep : ascii) (frame : DataFrame)
    : exn + string :=
  match check_columns columns (df_columns frame) with
  | inl e => inl e
  | inr _ => write_rows columns sep (df_columns frame) (df_rows frame)
  end.

Definition columns : list label :=
  [Name "chrom"; Name "start"; Name "stop"; Name "bc"; Name "ndupes";
   Name "strand"].

(** The cells of an output line as the specification lists them: chrom,
    start, stop, barcode, ndupes, strand. *)
Definition record_cells (kn : key * nat) : list cell :=
  let '((c, s, e, st, b), n) := kn in
  [Text c; Int s; Int e; Text b; Int (Z.of_nat n); Text st].

(** A text without the separator, a quote or a newline. *)
Definition plain (s : string) : Prop := any_char (special tab) s = false.

(** ** Loading the alignments (lines 94-98)

    [pd.read_csv(path, sep="\t", names=[six names])] with the defaults of
    pandas, on the lines of the file (the text between the line ends):

    - a line that is empty or made of blanks only is skipped; it still
      counts in the line numbers;
    - every other line is split at every tab;
    - a line after the first line of data with more fields than the six
      names raises a [ParserError] ("Expected 6 fields in line n, saw k")
      that gives the number of the line in the file;
    - a line with fewer fields is completed with missing values (NaN);
    - a field that is one of [na_values], the empty field among them, is
      read as a missing value;
    - no field is checked against a type: pandas types each column by what
      it holds, and a [start] column with a field that is no number is
      kept as text.

    The cells are given as the text of their fields, [None] for a missing
    value, before a column is typed.  What pandas does with the following
    is not embedded, and a file that has one of them is [Unread]: a quote
    character (it opens a quoted field), a line end or a byte outside
    ASCII within a line, a first line of data that has not six fields
    (with more, the first fields become row labels; with fewer, the
    versions of pandas differ), and the field [None] (a missing value for
    some versions of pandas only). *)

Definition names : list string :=
  ["chrom"; "start"; "stop"; "read_id"; "score"; "strand"].

Definition space : ascii := " "%char.
Definition carriage_return : ascii := "013"%char.

Fixpoint all_char (p : ascii → bool) (s : string) : bool :=
  match s with
  | "" => true
  | String c s' => p c && all_char p s'
  end.

Definition blank (line : string) : bool :=
  all_char (λ c, bool_decide (c = space)) line.

Definition na_values : list string :=
  [""; "#N/A"; "#N/A N/A"; "#NA"; "-1.#IND"; "-1.#QNAN"; "-NaN"; "-nan";
   "1.#IND"; "1.#QNAN"; "<NA>"; "N/A"; "NA"; "NULL"; "NaN"; "n/a"; "nan";
   "null"].

(** A cell of a loaded row; [None] is the missing value. *)
Definition read_cell (field : string) : option string :=
  if decide (field ∈ na_values) then None else Some field.

Definition read_row (fields : list string) : list (option string) :=
  (read_cell <$> fields) ++ replicate (length names - length fields) None.

Fixpoint tokenize_rows (file_lines : nat) (lines : list string)
    : exn + list (list (option string)) :=
  match lines with
  | [] => inr []
  | line :: rest =>
      let file_lines := S file_lines in
      if blank line then tokenize_rows file_lines rest
      else
        let fields := split_fields tab line in
        if decide (length names < length fields) then
          inl (ParserError (length names) file_lines (length fields))
        else
          match tokenize_rows file_lines rest with
          | inl e => inl e
          | inr rows => inr (read_row fields :: rows)
          end
  end.

Inductive loaded (A : Type) : Type :=
| Frame (rows : A)
| Raises (e : exn)
| Unread.
Global Arguments Frame {A} rows.
Global Arguments Raises {A} e.
Global Arguments Unread {A}.

Definition unread_char (c : ascii) : bool :=
  bool_decide (c = quotechar) || bool_decide (c = newline) ||
  bool_decide (c = carriage_return) || bool_decide (c = "000"%char) ||
  (128 <=? Ascii.N_of_ascii c)%N.

Definition embedded_line (line : string) : bool :=
  negb (any_char unread_char line) &&
  bool_decide ("None" ∉ split_fields tab line).

Definition read_csv (lines : list string)
    : loaded (list (list (option string))) :=
  if forallb embedded_line lines then
    match filter (λ line, blank line = false) lines with
    | [] => Frame []
    | first :: _ =>
        if decide (length (split_fields tab first) = length names) then
          match tokenize_rows 0 lines with
          | inl e => Raises e
          | inr rows => Frame rows
          end
        else Unread
    end
  else Unread.

(** ** The script on tables typed as in the data model, from the loaded
    tables to the text it writes *)

Definition main (input_seq_iterator : list SeqRecord.t) (alns : list AlnRow)
    : exn + string :=
  match bcalib (bcs input_seq_iterator) alns with
  | inl e => inl e
  | inr bcalib =>
      to_csv columns tab (merged (bcalib_cleaned bcalib).*2)
  end.

(** ** The tables as pandas holds them (lines 94-129)

    pandas types each column of the alignments by what the file holds: a
    column whose fields all read as integers is held as integers (an
    all-digit [chrom] column is, and its fields [01] and [1] are then the
    same value), a column of numbers that are not all integers as
    floating-point numbers, and a column with any other field as text; a
    missing cell is NaN.  Below, the join, the filter and the grouping are
    embedded on such tables: the values of [chrom], [start], [stop],
    [score] and [strand] are of any five types, those of the key columns
    with the order of their column (of the numbers for a numeric column,
    of Python on text), and a cell is a value or is missing.  The barcode
    is the text that the library gives; it is never missing. *)

(** What ends the script: an exception of the embedded parts, or the
    [ValueError] of [pd.merge]. *)
Inductive raised : Type :=
| Script (e : exn)
| MergeError (msg : string).

(** The alignments, by the kind of their [read_id] column: held as text
    (a cell is a text or is missing), or held as anything else (integers,
    floating-point numbers, truth values), whose values are not shown
    since none is equal to a text.  [A] is the rest of a row. *)
Inductive alignments (A : Type) : Type :=
| text_ids (rows : list (option string * A))
| other_ids (rows : list A).
Global Arguments text_ids {A} rows.
Global Arguments other_ids {A} rows.

(** [len(alns.index)] *)
Definition alignment_rows {A} (alns : alignments A) : nat :=
  match alns with
  | text_ids rows => length rows
  | other_ids rows => length rows
  end.

(** pandas holds a column as text when some cell of it is a text, and also
    when it has no row at all; a column whose cells are all missing is
    held as floating-point numbers.  [text_rows] gives the rows of the
    alignments when their [read_id] column is held as text, [other_rows]
    the rows without their [read_id] in any case. *)
Definition text_rows {A} (alns : alignments A)
    : option (list (option string * A)) :=
  match alns with
  | text_ids rows =>
      if decide (length rows = 0 ∨ Exists (λ r, is_Some r.1) rows)
      then Some rows else None
  | other_ids [] => Some []
  | other_ids _ => None
  end.

Definition other_rows {A} (alns : alignments A) : list A :=
  match alns with
  | text_ids rows => rows.*2
  | other_ids rows => rows
  end.

(** ** Joining (lines 100-107), whatever the columns hold

    [pd.merge(bcs, alns, on="read_id", how="inner", sort=False)].  The
    [read_id] of the library is text.  When that of the alignments is held
    as text too, the result has one row per pair of a library record and
    an alignment with the same identifier, listed by library record; a
    missing identifier is equal to none.  When it is not held as text, no
    pair is equal, and newer versions of pandas refuse to compare at all:
    they raise a [ValueError] ("You are trying to merge on object and
    int64 columns ...").  [kinds_error] stands for what the version at
    hand does with the two tables: the message of its error, or [None]
    when it raises none and the result is empty. *)

Section join.
Context {A : Type}.
Variable kinds_error : list BcRow → list A → option string.

Definition pd_merge (bcs : list BcRow) (alns : alignments A)
    : raised + list (BcRow * A) :=
  match text_rows alns with
  | Some rows =>
      inr (b ← bcs;
           (λ r, (b, r.2)) <$> filter (λ r, r.1 = Some (bcs_read_id b)) rows)
  | None =>
      match kinds_error bcs (other_rows alns) with
      | Some msg => inl (MergeError msg)
      | None => inr []
      end
  end.

(** Lines 101-107: the joined table under its fresh row labels, or the
    exception of line 107 when it is empty. *)
Definition join_stage (bcs : list BcRow) (alns : alignments A)
    : raised + list (nat * (BcRow * A)) :=
  match pd_merge bcs alns with
  | inl e => inl e
  | inr [] => inl (Script no_common_entries)
  | inr bcalib => inr (range_index bcalib)
  end.

End join.

(** The count that a series holds for a key; a key without an entry
    counts for nothing. *)
Fixpoint ndupes_of {K} `{EqDecision K} (out : list (K * nat)) (k : K) : nat :=
  match out with
  | [] => 0
  | (k', n) :: out' => if decide (k' = k) then n else ndupes_of out' k
  end.

(** The texts of the two messages of lines 108-124. *)
Definition unmatched_text (n_alns n_bcalib : nat) : string :=
  pretty (n_alns - n_bcalib) +:+ " of " +:+ pretty n_alns +:+
  " alignments could not be associated with a random barcode.".

Definition dropped_text (n_bcalib n_bcalib_cleaned : nat) : string :=
  pretty (n_bcalib - n_bcalib_cleaned) +:+ " of " +:+ pretty n_bcalib +:+
  " alignments had random barcodes containing uncalled bases and were dropped.".

Section columns.
Context {Chrom Start Stop Score Strand : Type}.
Context `{!Lexico Chrom, !TrichotomyT (@lexico Chrom _), !EqDecision Chrom}.
Context `{!Lexico Start, !TrichotomyT (@lexico Start _), !EqDecision Start}.
Context `{!Lexico Stop, !TrichotomyT (@lexico Stop _), !EqDecision Stop}.
Context `{!Lexico Strand, !TrichotomyT (@lexico Strand _),
          !EqDecision Strand}.

(** The cells of an alignment apart from its [read_id]. *)
Record AlnCells : Type := mkAlnCells {
  chrom_cell : option Chrom;
  start_cell : option Start;
  stop_cell : option Stop;
  score_cell : option Score;
  strand_cell : option Strand
}.

Definition frame_key : Type := Chrom * Start * Stop * Strand * string.

(** The key of a joined row, when none of its key cells is missing. *)
Definition present_key (row : BcRow * AlnCells) : option frame_key :=
  c ← chrom_cell row.2;
  s ← start_cell row.2;
  e ← stop_cell row.2;
  st ← strand_cell row.2;
  Some (c, s, e, st, bcs_bc row.1).

(** Lines 115-116 on these rows. *)
Definition drop_uncalled (bcalib : list (nat * (BcRow * AlnCells)))
    : list (nat * (BcRow * AlnCells)) :=
  drop_labels
    (index (boolean_index (λ r, str_contains "N" (bcs_bc r.1)) bcalib))
    bcalib.

(** [.groupby(['chrom', 'start', 'stop', 'strand', 'bc']).size()], line
    128: [groupby] leaves out the rows with a missing value in a key
    column, and groups and orders the others by the values of their key
    cells. *)
Definition groupby_dropna (cleaned : list (BcRow * AlnCells))
    : list (frame_key * nat) :=
  groupby_size (omap present_key cleaned).

(** The order of the groups, column by column from left to right, each
    column in its own order. *)
Definition frame_key_lt (k1 k2 : frame_key) : Prop :=
  let '(c1, s1, e1, st1, b1) := k1 in
  let '(c2, s2, e2, st2, b2) := k2 in
  lexico c1 c2 ∨ c1 = c2 ∧
  (lexico s1 s2 ∨ s1 = s2 ∧
  (lexico e1 e2 ∨ e1 = e2 ∧
  (lexico st1 st2 ∨ st1 = st2 ∧ text_lt b1 b2))).

Variable kinds_error : list BcRow → list AlnCells → option string.

(** Lines 87-129 from the loaded tables: the exception that ends the
    script, or the warning about alignments without a barcode (if given),
    the message about dropped rows (if given; its level, which the script
    takes from a floating-point comparison, is not embedded) and the
    series of the counts.  Both messages come after the test of line 106:
    none is given when the script raises. *)
Definition run (input_seq_iterator : list SeqRecord.t)
    (alns : alignments AlnCells)
    : raised + (option string * option string * list (frame_key * nat)) :=
  match join_stage kinds_error (bcs input_seq_iterator) alns with
  | inl e => inl e
  | inr bcalib =>
      let n_alns := alignment_rows alns in
      let n_bcalib := length bcalib in
      let warning :=
        if decide (n_bcalib < n_alns)
        then Some (unmatched_text n_alns n_bcalib) else None in
      let bcalib_cleaned := drop_uncalled bcalib in
      let n_bcalib_cleaned := length bcalib_cleaned in
      let message :=
        if decide (n_bcalib_cleaned < n_bcalib)
        then Some (dropped_text n_bcalib n_bcalib_cleaned) else None in
      inr (warning, message, groupby_dropna bcalib_cleaned.*2)
  end.

End columns.

Global Arguments AlnCells : clear implicits.
Global Arguments frame_key : clear implicits.

(** The order of the groups spelled out for a [chrom] column that is held
    as integers, [start] and [stop] being integers too and [strand] text:
    the chromosomes are compared as numbers. *)
Definition key_lt_numeric_chrom (k1 k2 : frame_key Z Z Z string) : Prop :=
  let '(c1, s1, e1, st1, b1) := k1 in
  let '(c2, s2, e2, st2, b2) := k2 in
  (c1 < c2)%Z ∨ c1 = c2 ∧
  ((s1 < s2)%Z ∨ s1 = s2 ∧
  ((e1 < e2)%Z ∨ e1 = e2 ∧
  (text_lt st1 st2 ∨ st1 = st2 ∧ text_lt b1 b2))).

(** A row of the tables typed as in the data model, as a row of the
    tables above: text for [chrom], [score] and [strand], integers for
    [start] and [stop], and no cell missing. *)
Definition cells_of (r : JoinedRow)
    : BcRow * AlnCells string Z Z string string :=
  (mkBcRow (read_id r) (bc r),
   mkAlnCells (Some (chrom r)) (Some (start r)) (Some (stop r))
     (Some (score r)) (Some (strand r))).

(** ** Typing the loaded cells (lines 94-98)

    What pandas makes of a column of loaded cells, where that is beyond
    doubt.  A column without rows is held as text.  A column whose cells
    are all integers in decimal digits is held as integers: [01] and [1]
    are then the same value.  A column with a field that is neither a
    number nor a truth value in any notation is held as text, all of its
    fields as they are written.  [surely_text] is such a field: one with a
    digit and a letter that is no exponent mark, or one without a digit
    that has no letter or a letter that does not occur in the words inf,
    infinity, nan, true and false.  Every other column (floating-point
    numbers, truth values, integers with a missing cell, fields that may
    or may not read as numbers) is not embedded. *)

Global Instance cell_eq_dec : EqDecision cell.
Proof. solve_decision. Defined.

(** The order of the values of a column.  The values of one column are of
    one kind; between the kinds the order plays no role. *)
Global Instance cell_lexico : Lexico cell := λ c1 c2,
  match c1, c2 with
  | Int z1, Int z2 => (z1 < z2)%Z
  | Text s1, Text s2 => text_lt s1 s2
  | Int _, Text _ => True
  | Text _, Int _ => False
  end.

Global Instance cell_lexico_trichotomy : TrichotomyT (@lexico cell _).
Proof.
  intros [s1|z1] [s2|z2].
  - destruct (trichotomyT lexico s1 s2) as [[H|H]|H].
    + left; left; exact H.
    + left; right; exact (f_equal Text H).
    + right; exact H.
  - right; exact I.
  - left; left; exact I.
  - destruct (trichotomyT lexico z1 z2) as [[H|H]|H].
    + left; left; exact H.
    + left; right; exact (f_equal Int H).
    + right; exact H.
Defined.

Definition is_digit (c : ascii) : bool :=
  (48 <=? Ascii.N_of_ascii c)%N && (Ascii.N_of_ascii c <=? 57)%N.

Definition is_letter (c : ascii) : bool :=
  (65 <=? Ascii.N_of_ascii c)%N && (Ascii.N_of_ascii c <=? 90)%N ||
  (97 <=? Ascii.N_of_ascii c)%N && (Ascii.N_of_ascii c <=? 122)%N.

Fixpoint digits_value (acc : Z) (s : string) : option Z :=
  match s with
  | "" => Some acc
  | String c s' =>
      if is_digit c
      then digits_value (10 * acc + Z.of_N (Ascii.N_of_ascii c - 48)) s'
      else None
  end.

(** An integer in at most 18 decimal digits, with or without a minus
    sign: it is within the 64 bits of a pandas integer. *)
Definition int_field (field : string) : option Z :=
  if decide (18 < String.length field) then None
  else match field with
       | "" => None
       | String c rest =>
           if bool_decide (c = "-"%char) then
             if bool_decide (rest = "") then None
             else Z.opp <$> digits_value 0 rest
           else digits_value 0 field
       end.

Definition exponent_letters : list ascii :=
  list_ascii_of_string "eExXpPjJdD".

Definition word_letters : list ascii :=
  list_ascii_of_string "aefilnrstuyAEFILNRSTUY".

Definition surely_text (field : string) : bool :=
  if any_char is_digit field then
    any_char (λ c, is_letter c && bool_decide (c ∉ exponent_letters)) field
  else
    negb (any_char is_letter field) ||
    any_char (λ c, is_letter c && bool_decide (c ∉ word_letters)) field.

Inductive kind : Type :=
| held_as_integers
| held_as_text
| kind_not_embedded.

Global Instance kind_eq_dec : EqDecision kind.
Proof. solve_decision. Defined.

Definition column_kind (cells : list (option string)) : kind :=
  match cells with
  | [] => held_as_text
  | _ =>
      if forallb (λ loaded, bool_decide (is_Some (loaded ≫= int_field))) cells
      then held_as_integers
      else if existsb (from_option surely_text false) cells
      then held_as_text
      else kind_not_embedded
  end.

Definition typed_cell (k : kind) (loaded : option string) : option cell :=
  match k with
  | held_as_integers => Int <$> (loaded ≫= int_field)
  | held_as_text => Text <$> loaded
  | kind_not_embedded => None
  end.

(** The cell of a loaded row in the column of a name, by its place in
    [names]. *)
Definition cell_at (i : nat) (row : list (option string)) : option string :=
  mjoin (row !! i).

(** The alignments as pandas holds them: the key columns typed, the
    [read_id] column by its kind, the score as it was loaded (the script
    never reads it). *)
Definition type_alignments (rows : list (list (option string)))
    : option (alignments (AlnCells cell cell cell string cell)) :=
  let chrom := column_kind (cell_at 0 <$> rows) in
  let start := column_kind (cell_at 1 <$> rows) in
  let stop := column_kind (cell_at 2 <$> rows) in
  let strand := column_kind (cell_at 5 <$> rows) in
  let cells row :=
    mkAlnCells (typed_cell chrom (cell_at 0 row))
      (typed_cell start (cell_at 1 row)) (typed_cell stop (cell_at 2 row))
      (cell_at 4 row) (typed_cell strand (cell_at 5 row)) in
  if decide (kind_not_embedded ∈ [chrom; start; stop; strand]) then None
  else match column_kind (cell_at 3 <$> rows) with
       | held_as_text =>
           Some (text_ids ((λ row, (cell_at 3 row, cells row)) <$> rows))
       | held_as_integers => Some (other_ids (cells <$> rows))
       | kind_not_embedded => None
       end.

(** ** The script, from the two files to the text it writes (lines 87-137)

    The library is given as its records, the alignments as the lines of
    their file.  The script returns the text it writes or fails with an
    exception; where a part of pandas is not embedded it is
    [NotEmbedded]. *)

Inductive outcome (A : Type) : Type :=
| Returns (a : A)
| Fails (e : raised)
| NotEmbedded.
Global Arguments Returns {A} a.
Global Arguments Fails {A} e.
Global Arguments NotEmbedded {A}.

(** [.reset_index()] on the series of the counts of typed keys. *)
Definition reset_index_cells
    (series : list (frame_key cell cell cell cell * nat)) : DataFrame :=
  mkDataFrame
    [Name "chrom"; Name "start"; Name "stop"; Name "strand"; Name "bc";
     Level 0]
    ((λ kn, let '((c, s, e, st, b), n) := kn in
        [c; s; e; st; Text b; Int (Z.of_nat n)])
       <$> series).


Definition script
    (kinds_error :
       list BcRow → list (AlnCells cell cell cell string cell) →
       option string)
    (input_seq_iterator : list SeqRecord.t) (lines : list string)
    : outcome string :=
  match read_csv lines with
  | Unread => NotEmbedded
  | Raises e => Fails (Script e)
  | Frame rows =>
      match type_alignments rows with
      | None => NotEmbedded
      | Some alns =>
          match run kinds_error input_seq_iterator alns with
          | inl e => Fails e
          | inr (_, _, series) =>
              match to_csv columns tab
                      (rename (Level 0) (Name "ndupes")
                         (reset_index_cells series)) with
              | inl e => Fails (Script e)
              | inr text => Returns text
              end
          end
      end
  end.

(** * bctools: extract_bcs.py

    The script that writes the barcode library: it moves the nucleotides
    at the [X] positions of a pattern from each read of a FASTQ file to the
    header of the read.  A Python [str] is here the list of its characters,
    so that a slice is made of [take] and [drop]; the reads are the
    (header, sequence, quality) triples that the FASTQ iterator yields.
    The logging calls are left out. *)

Module ExtractBcs.

Abbreviation str := (list ascii).

Inductive error : Type :=
| ValueError (msg : str)
| IndexError.

Definition X : ascii := "X"%char.
Definition N : ascii := "N"%char.

(** [re.compile("^[XN]+$").match(pattern)]: one or more characters of the
    class, up to the end of the text or to a newline that ends the text.
    [seen] tells whether a character of the class was read. *)
Fixpoint valid_pattern_go (seen : bool) (pattern : str) : bool :=
  match pattern with
  | [] => seen
  | c :: rest =>
      if decide (c = X ∨ c = N) then valid_pattern_go true rest
      else seen && bool_decide (c = newline) && bool_decide (rest = [])
  end.

Definition valid_pattern (pattern : str) : bool :=
  valid_pattern_go false pattern.

(** [re.compile("X").search(pattern)] *)
Definition has_bcpos_pattern (pattern : str) : bool :=
  bool_decide (X ∈ pattern).

(** [re.finditer(re.compile("X+"), pattern)], each match as the pair
    (m.start(), m.end()): the scan goes from left to right; [start] is
    the position where the match that is being read began. *)
Fixpoint finditer_X (pos : nat) (start : option nat) (pattern : str)
    : list (nat * nat) :=
  match pattern with
  | [] =>
      match start with
      | Some st => [(st, pos)]
      | None => []
      end
  | c :: rest =>
      if decide (c = X) then
        finditer_X (S pos) (Some (default pos start)) rest
      else
        match start with
        | Some st => (st, pos) :: finditer_X (S pos) None rest
        | None => finditer_X (S pos) None rest
        end
  end.

Definition barcode_positions (pattern : str) : list (nat * nat) :=
  finditer_X 0 None pattern.

(** [barcode_positions[-1][-1]] *)
Definition min_readlen (barcode_positions : list (nat * nat)) : error + nat :=
  match last barcode_positions with
  | Some (_, bcstop) => inr bcstop
  | None => inl IndexError
  end.

(** The loop of lines 103-107, as the pair of [seq_positions] and
    [last_seq_start] that it leaves. *)
Definition seq_positions (barcode_positions : list (nat * nat))
    : list (nat * nat) * nat :=
  foldl (λ st bc, (st.1 ++ [(st.2, bc.1)], bc.2)) ([], 0) barcode_positions.

(** [s[a:b]] and [s[a:]] for indices that are not negative. *)
Definition slice (a b : nat) (s : str) : str := take (b - a) (drop a s).
Definition slice_from (a : nat) (s : str) : str := drop a s.

(** The body of the loop over the reads, lines 116-145: [None] when the
    read is skipped, else the barcode, the new sequence and the new
    quality. *)
Definition extract (barcode_positions : list (nat * nat))
    (seq_positions : list (nat * nat)) (last_seq_start min_readlen : nat)
    (seq qual : str) : option (str * str * str) :=
  if decide (length seq < min_readlen) then None
  else
    let barcode := concat ((λ bc, slice bc.1 bc.2 seq) <$> barcode_positions) in
    let new_seq :=
      concat (((λ sp, slice sp.1 sp.2 seq) <$> seq_positions) ++
              [slice_from last_seq_start seq]) in
    let new_qual :=
      concat (((λ sp, slice sp.1 sp.2 qual) <$> seq_positions) ++
              [slice_from last_seq_start qual]) in
    if decide (length new_seq = 0) then None
    else Some (barcode, new_seq, new_qual).

(** The text of a read in the FASTQ output and of its barcode in the FASTA
    output, lines 148-153. *)
Definition fastq_record (header barcode new_seq new_qual : str) : str :=
  "@"%char :: (header ++ " "%char :: barcode) ++ newline ::
  new_seq ++ newline :: "+"%char :: newline :: new_qual ++ [newline].

Definition fasta_record (header barcode : str) : str :=
  ">"%char :: header ++ newline :: barcode ++ [newline].

Definition not_valid (pattern : str) : str :=
  list_ascii_of_string "Error: supplied pattern '" ++ pattern ++
  list_ascii_of_string "' is not valid.".

Definition no_barcode_position (pattern : str) : str :=
  list_ascii_of_string "Error: supplied pattern '" ++ pattern ++
  list_ascii_of_string "' does not contain a barcode position 'X'.".

(** The script, from the pattern and the reads to the text written to the
    FASTQ output and to the FASTA output; the latter is written if
    [out_bc_fasta] is set. *)
Definition main (pattern : str) (out_bc_fasta : bool)
    (reads : list (str * str * str)) : error + (str * option str) :=
  if negb (valid_pattern pattern) then inl (ValueError (not_valid pattern))
  else if negb (has_bcpos_pattern pattern) then
    inl (ValueError (no_barcode_position pattern))
  else
    let barcode_positions := barcode_positions pattern in
    match min_readlen barcode_positions with
    | inl e => inl e
    | inr min_readlen =>
        let '(seq_positions, last_seq_start) :=
          seq_positions barcode_positions in
        inr (foldl
               (λ out read,
                  let '(header, seq, qual) := read in
                  match extract barcode_positions seq_positions
                          last_seq_start min_readlen seq qual with
                  | None => out
                  | Some (barcode, new_seq, new_qual) =>
                      (out.1 ++ fastq_record header barcode new_seq new_qual,
                       if out_bc_fasta
                       then Some (default [] out.2 ++
                                  fasta_record header barcode)
                       else None)
                  end)
               ([], if out_bc_fasta then Some [] else None) reads)
    end.

(** What the pattern asks for, character by character: the characters of
    a text that stand at an [X] of the pattern, and the others together
    with all that comes after the pattern. *)
Definition at_X (pattern s : str) : str :=
  (filter (λ cs, cs.1 = X) (zip pattern s)).*2.

Definition not_at_X (pattern s : str) : str :=
  (filter (λ cs, cs.1 ≠ X) (zip pattern s)).*2 ++ drop (length pattern) s.

End ExtractBcs.

(** * Properties *)

(** ** The order on text and on keys *)

Lemma string_compare_refl (s : string) : String.compare s s = Eq.
Proof.
  induction s as [|a s IH]; simpl; [done|].
  unfold Ascii.compare. by rewrite N.compare_refl.
Qed.

Lemma string_compare_lt_trans (s1 s2 s3 : string) :
  String.compare s1 s2 = Lt → String.compare s2 s3 = Lt →
  String.compare s1 s3 = Lt.
Proof.
  revert s2 s3.
  induction s1 as [|a1 s1 IH]; intros [|a2 s2] [|a3 s3] H12 H23;
    simplify_eq/=; [done|].
  destruct (Ascii.compare a1 a2) eqn:Ha12; simplify_eq/=.
  - apply Ascii.compare_eq_iff in Ha12 as ->.
    destruct (Ascii.compare a2 a3); simplify_eq/=; eauto.
  - destruct (Ascii.compare a2 a3) eqn:Ha23; simplify_eq/=.
    + apply Ascii.compare_eq_iff in Ha23 as ->. by rewrite Ha12.
    + assert (Ascii.compare a1 a3 = Lt) as ->; [|done].
      unfold Ascii.compare in *.
      apply N.compare_lt_iff. etrans; by apply N.compare_lt_iff.
Qed.

Global Instance string_lexico_po : StrictOrder (@lexico string _).
Proof.
  split.
  - intros s Hs. unfold lexico, string_lexico in Hs.
    by rewrite string_compare_refl in Hs.
  - intros s1 s2 s3. apply string_compare_lt_trans.
Qed.

Global Instance key_lexico_po : StrictOrder (@lexico key _).
Proof. unfold key. apply _. Qed.

(** ** Facts on [groupby_size], for any ordered key type *)

Section groupby_facts.
Context {K : Type} `{Lexico K, !StrictOrder (@lexico K _),
                     !TrichotomyT (@lexico K _), !EqDecision K}.
Implicit Types (k : K) (ks : list K).

Lemma insert_key_elem_of k x ks : x ∈ insert_key k ks ↔ x = k ∨ x ∈ ks.
Proof.
  induction ks as [|k' ks IH]; simpl.
  - rewrite list_elem_of_singleton, elem_of_nil. tauto.
  - destruct (trichotomyT lexico k k') as [[Hlt| ->]|Hgt].
    + by rewrite elem_of_cons.
    + rewrite elem_of_cons. tauto.
    + rewrite !elem_of_cons, IH. tauto.
Qed.

Lemma insert_key_HdRel k x ks :
  lexico x k → HdRel lexico x ks → HdRel lexico x (insert_key k ks).
Proof.
  intros Hxk Hhd. destruct ks as [|k' ks]; simpl; [by constructor|].
  destruct (trichotomyT lexico k k') as [[?|?]|?]; [by constructor|done|].
  constructor. by inv Hhd.
Qed.

Lemma insert_key_Sorted k ks :
  Sorted lexico ks → Sorted lexico (insert_key k ks).
Proof.
  induction 1 as [|k' ks Hs IH Hhd]; simpl; [by repeat constructor|].
  destruct (trichotomyT lexico k k') as [[Hlt| ->]|Hgt].
  - constructor; [by constructor|by constructor].
  - by constructor.
  - constructor; [done|]. by apply insert_key_HdRel.
Qed.

Lemma group_keys_Sorted ks : Sorted lexico (group_keys ks).
Proof.
  induction ks as [|k ks IH]; simpl; [constructor|].
  by apply insert_key_Sorted.
Qed.

Lemma group_keys_StronglySorted ks : StronglySorted lexico (group_keys ks).
Proof. apply Sorted_StronglySorted; [apply _|apply group_keys_Sorted]. Qed.

Lemma group_keys_elem_of x ks : x ∈ group_keys ks ↔ x ∈ ks.
Proof.
  induction ks as [|k ks IH]; simpl; [done|].
  by rewrite insert_key_elem_of, IH, elem_of_cons.
Qed.

Lemma StronglySorted_lexico_NoDup ks : StronglySorted lexico ks → NoDup ks.
Proof.
  induction 1 as [|k ks Hs IH Hall]; constructor; [|done].
  intros Hin. rewrite Forall_forall in Hall.
  by apply (irreflexivity lexico k), Hall.
Qed.

Lemma group_keys_NoDup ks : NoDup (group_keys ks).
Proof. apply StronglySorted_lexico_NoDup, group_keys_StronglySorted. Qed.

(** Two strictly sorted lists with the same elements are the same list. *)
Lemma Sorted_lexico_ext ks1 ks2 :
  Sorted lexico ks1 → Sorted lexico ks2 →
  (∀ x, x ∈ ks1 ↔ x ∈ ks2) → ks1 = ks2.
Proof.
  intros Hs1 Hs2 Hel.
  apply (Sorted_unique_strong lexico); [|done..|].
  - intros x1 x2 _ _ H12 H21.
    destruct (irreflexivity lexico x1). by etrans.
  - apply NoDup_Permutation; [| |done];
      apply StronglySorted_lexico_NoDup, Sorted_StronglySorted;
      solve [apply _|done].
Qed.

Lemma group_keys_perm ks1 ks2 : ks1 ≡ₚ ks2 → group_keys ks1 = group_keys ks2.
Proof.
  intros Hp. apply Sorted_lexico_ext; [apply group_keys_Sorted..|].
  intros x. rewrite !group_keys_elem_of. by rewrite Hp.
Qed.

Lemma group_size_perm k ks1 ks2 :
  ks1 ≡ₚ ks2 → group_size k ks1 = group_size k ks2.
Proof. intros Hp. unfold group_size. by rewrite Hp. Qed.

Lemma group_size_pos k ks : k ∈ ks → 1 ≤ group_size k ks.
Proof.
  intros Hin. unfold group_size.
  assert (k ∈ filter (k =.) ks) as Hf by (by apply list_elem_of_filter).
  destruct (filter (k =.) ks); [by apply elem_of_nil in Hf|simpl; lia].
Qed.

Lemma groupby_size_perm ks1 ks2 :
  ks1 ≡ₚ ks2 → groupby_size ks1 = groupby_size ks2.
Proof.
  intros Hp. unfold groupby_size. rewrite (group_keys_perm _ _ Hp).
  apply list_fmap_ext. intros _ k _. by rewrite (group_size_perm _ _ _ Hp).
Qed.

Lemma groupby_size_keys ks : (groupby_size ks).*1 = group_keys ks.
Proof.
  unfold groupby_size. rewrite <-list_fmap_compose.
  rewrite <-(list_fmap_id (group_keys ks)) at 2. by apply list_fmap_ext.
Qed.

Lemma groupby_size_elem_of k n ks :
  (k, n) ∈ groupby_size ks ↔ k ∈ ks ∧ n = group_size k ks.
Proof.
  unfold groupby_size. rewrite list_elem_of_fmap. split.
  - intros (k' & [= -> ->] & Hin). by rewrite group_keys_elem_of in Hin.
  - intros [Hin ->]. exists k. by rewrite group_keys_elem_of.
Qed.

(** The sizes of the groups of a duplicate-free list of keys that covers
    [ks] add up to the length of [ks]. *)
Lemma group_size_cons k x ks :
  group_size k (x :: ks) = (if decide (k = x) then 1 else 0) + group_size k ks.
Proof. unfold group_size. rewrite filter_cons. by case_decide. Qed.

Lemma sum_indicator (gs : list K) x :
  NoDup gs → x ∈ gs →
  sum_list ((λ k, if decide (k = x) then 1 else 0) <$> gs) = 1.
Proof.
  induction 1 as [|g gs Hg Hnd IH]; intros Hx; [by apply elem_of_nil in Hx|].
  csimpl. apply elem_of_cons in Hx as [->|Hx].
  - rewrite decide_True by done. f_equal.
    clear IH Hnd. induction gs as [|g' gs IH]; csimpl; [done|].
    apply not_elem_of_cons in Hg as [Hne Hg].
    rewrite decide_False by done. by apply IH.
  - rewrite decide_False by (by intros ->). by apply IH.
Qed.

Lemma sum_list_fmap_plus (f g : K → nat) (gs : list K) :
  sum_list ((λ k, f k + g k) <$> gs) =
  sum_list (f <$> gs) + sum_list (g <$> gs).
Proof. induction gs as [|x gs IH]; csimpl; [done|]. rewrite IH. lia. Qed.

(** The sizes of the groups of a duplicate-free list of keys that covers
    [ks] add up to the length of [ks]. *)
Lemma sum_group_size (gs ks : list K) :
  NoDup gs → (∀ x, x ∈ ks → x ∈ gs) →
  sum_list ((λ k, group_size k ks) <$> gs) = length ks.
Proof.
  intros Hnd. induction ks as [|x ks IH]; intros Hcov.
  - clear. induction gs as [|g gs IHg]; csimpl; [done|]. by rewrite IHg.
  - rewrite (list_fmap_ext (λ k, group_size k (x :: ks))
      (λ k, (if decide (k = x) then 1 else 0) + group_size k ks) gs)
      by (intros; apply group_size_cons).
    rewrite sum_list_fmap_plus.
    rewrite sum_indicator by (done || (apply Hcov; by left)).
    rewrite IH by (intros y Hy; apply Hcov; by right). done.
Qed.

Lemma groupby_size_sum ks : sum_list (groupby_size ks).*2 = length ks.
Proof.
  unfold groupby_size. rewrite <-list_fmap_compose.
  rewrite <-(sum_group_size (group_keys ks) ks).
  - done.
  - apply group_keys_NoDup.
  - intros x. by rewrite group_keys_elem_of.
Qed.

Lemma group_size_app k ks1 ks2 :
  group_size k (ks1 ++ ks2) = group_size k ks1 + group_size k ks2.
Proof. unfold group_size. by rewrite filter_app, length_app. Qed.

Lemma group_size_replicate k x n :
  group_size k (replicate n x) = if decide (k = x) then n else 0.
Proof.
  induction n as [|n IH]; simpl; [by case_decide|].
  rewrite group_size_cons, IH. by case_decide.
Qed.

Lemma group_size_absent k ks : k ∉ ks → group_size k ks = 0.
Proof.
  induction ks as [|x ks IH]; [done|].
  intros [Hne Hk]%not_elem_of_cons.
  rewrite group_size_cons, decide_False, IH; done.
Qed.

Lemma repeat_keys_elem_of x (out : list (K * nat)) :
  x ∈ repeat_keys out ↔ ∃ n, (x, n) ∈ out ∧ n ≠ 0.
Proof.
  unfold repeat_keys. rewrite list_elem_of_bind. split.
  - intros ([k n] & [-> Hn]%elem_of_replicate & Hin). eauto.
  - intros (n & Hin & Hn). exists (x, n). by rewrite elem_of_replicate.
Qed.

Lemma group_size_repeat_keys k n (out : list (K * nat)) :
  NoDup out.*1 → (k, n) ∈ out → group_size k (repeat_keys out) = n.
Proof.
  unfold repeat_keys.
  induction out as [|[k' n'] out IH]; intros Hnd Hin;
    [by apply elem_of_nil in Hin|].
  rewrite bind_cons, group_size_app, group_size_replicate. simpl.
  rewrite fmap_cons in Hnd. apply NoDup_cons in Hnd as [Hk' Hnd].
  apply elem_of_cons in Hin as [[= <- <-]|Hin].
  - rewrite decide_True by done.
    rewrite group_size_absent; [lia|].
    intros (n0 & Hin0 & _)%repeat_keys_elem_of.
    apply Hk'. by apply (list_elem_of_fmap_2' fst _ (k, n0)).
  - rewrite decide_False, IH; [done..|].
    intros ->. apply Hk'. by apply (list_elem_of_fmap_2' fst _ (k', n)).
Qed.

(** Grouping the repeated keys of a sorted series of positive counts gives
    the series back. *)
Lemma groupby_size_repeat_keys (out : list (K * nat)) :
  Sorted lexico out.*1 → (∀ k n, (k, n) ∈ out → n ≠ 0) →
  groupby_size (repeat_keys out) = out.
Proof.
  intros Hs Hpos. unfold groupby_size.
  assert (group_keys (repeat_keys out) = out.*1) as ->.
  { apply Sorted_lexico_ext; [apply group_keys_Sorted|done|].
    intros x. rewrite group_keys_elem_of, repeat_keys_elem_of.
    rewrite list_elem_of_fmap. split.
    - intros (n & Hin & _). by exists (x, n).
    - intros ([k n] & -> & Hin). exists n. eauto. }
  rewrite <-list_fmap_compose. rewrite <-(list_fmap_id out) at 2.
  apply list_fmap_ext. intros i [k n] Hi. simpl. f_equal.
  apply group_size_repeat_keys.
  - by apply StronglySorted_lexico_NoDup, Sorted_StronglySorted; [apply _|].
  - by apply list_elem_of_lookup_2 in Hi.
Qed.

End groupby_facts.

(** ** The collapse stage *)

Lemma key_lt_lexico (k1 k2 : key) : key_lt k1 k2 ↔ lexico k1 k2.
Proof.
  destruct k1 as [[[[c1 s1] e1] st1] b1], k2 as [[[[c2 s2] e2] st2] b2].
  unfold key_lt, text_lt, lexico, prod_lexico; simpl.
  unfold lexico, prod_lexico, string_lexico, Z_lexico; simpl.
  unfold lexico, prod_lexico, string_lexico, Z_lexico; simpl.
  unfold lexico, prod_lexico, string_lexico, Z_lexico; simpl.
  split; intros Hlt.
  - destruct Hlt as [?|(-> & [?|(-> & [?|(-> & [?|(-> & ?)])])])]; eauto 10.
  - destruct Hlt
      as [[[[?|[? ?]]|[? ?]]|[? ?]]|[? ?]]; simplify_eq/=; eauto 10.
Qed.

Lemma key_of_expand (fill : key → string * string) (out : list (key * nat)) :
  key_of <$> expand fill out = repeat_keys out.
Proof.
  unfold expand, repeat_keys.
  induction out as [|[[[[[c s] e] st] b] n] out IH]; [done|].
  rewrite !bind_cons, fmap_app, IH. f_equal. simpl.
  by rewrite fmap_replicate.
Qed.

(** C7. [collapse] gives the same output, records and order, on every
    permutation of its input. *)
Theorem collapse_permutation (cleaned cleaned' : list JoinedRow) :
  cleaned ≡ₚ cleaned' → collapse cleaned = collapse cleaned'.
Proof.
  intros Hp. unfold collapse. apply groupby_size_perm. by rewrite Hp.
Qed.

Lemma collapse_permutation_witness :
  [mkJoinedRow "read1" "AAGG" "chr1" 100 110 "0" "+";
   mkJoinedRow "read2" "CCTT" "chr1" 90 110 "0" "-";
   mkJoinedRow "read3" "AAGG" "chr1" 100 110 "0" "+"] ≡ₚ
  [mkJoinedRow "read1" "AAGG" "chr1" 100 110 "0" "+";
   mkJoinedRow "read3" "AAGG" "chr1" 100 110 "0" "+";
   mkJoinedRow "read2" "CCTT" "chr1" 90 110 "0" "-"] ∧
  collapse
    [mkJoinedRow "read1" "AAGG" "chr1" 100 110 "0" "+";
     mkJoinedRow "read2" "CCTT" "chr1" 90 110 "0" "-";
     mkJoinedRow "read3" "AAGG" "chr1" 100 110 "0" "+"] =
  collapse
    [mkJoinedRow "read1" "AAGG" "chr1" 100 110 "0" "+";
     mkJoinedRow "read3" "AAGG" "chr1" 100 110 "0" "+";
     mkJoinedRow "read2" "CCTT" "chr1" 90 110 "0" "-"].
Proof.
  split; [apply perm_skip, perm_swap|].
  apply collapse_permutation, perm_skip, perm_swap.
Defined.

(** C8. Expanding every record of the output of [collapse] into [ndupes]
    rows with its key and collapsing again gives the same output. *)
Theorem collapse_expand (fill : key → string * string)
    (cleaned : list JoinedRow) :
  collapse (expand fill (collapse cleaned)) = collapse cleaned.
Proof.
  unfold collapse at 1. rewrite key_of_expand.
  apply groupby_size_repeat_keys.
  - unfold collapse. rewrite groupby_size_keys. apply group_keys_Sorted.
  - intros k n [Hin ->]%groupby_size_elem_of.
    apply group_size_pos in Hin. lia.
Qed.

(** ** The join stage *)

Lemma merge_elem_of (bcs : list BcRow) (alns : list AlnRow) (r : JoinedRow) :
  r ∈ merge bcs alns ↔
  ∃ b a, b ∈ bcs ∧ a ∈ alns ∧ alns_read_id a = bcs_read_id b ∧
         r = join_row b a.
Proof.
  unfold merge. rewrite list_elem_of_bind. split.
  - intros (b & Hr & Hb). apply list_elem_of_fmap in Hr as (a & -> & Ha).
    apply list_elem_of_filter in Ha as [Hid Ha]. by exists b, a.
  - intros (b & a & Hb & Ha & Hid & ->). exists b. split; [|done].
    apply list_elem_of_fmap_2. by apply list_elem_of_filter.
Qed.

Lemma merge_nil_iff (bcs : list BcRow) (alns : list AlnRow) :
  merge bcs alns = [] ↔
  ∀ b a, b ∈ bcs → a ∈ alns → alns_read_id a ≠ bcs_read_id b.
Proof.
  split.
  - intros Hnil b a Hb Ha Hid.
    assert (join_row b a ∈ merge bcs alns) as Hin
      by (apply merge_elem_of; by exists b, a).
    rewrite Hnil in Hin. by apply elem_of_nil in Hin.
  - intros Hno. destruct (merge bcs alns) as [|r rs] eqn:Hm; [done|].
    assert (r ∈ merge bcs alns) as Hin by (rewrite Hm; left).
    apply merge_elem_of in Hin as (b & a & Hb & Ha & Hid & _).
    by destruct (Hno b a).
Qed.

Lemma merge_single (bcs : list BcRow) (a : AlnRow) :
  merge bcs [a] =
  (λ b, join_row b a) <$> filter (λ b, bcs_read_id b = alns_read_id a) bcs.
Proof.
  unfold merge. induction bcs as [|b bcs IH]; [done|].
  rewrite bind_cons, IH, filter_cons. rewrite filter_cons, filter_nil.
  destruct (decide (alns_read_id a = bcs_read_id b)),
    (decide (bcs_read_id b = alns_read_id a)); try congruence; done.
Qed.

(** ** The quality filter *)

Lemma str_contains_uncalled (s : string) :
  str_contains "N" s = true ↔ has_uncalled s.
Proof.
  unfold has_uncalled, uncalled.
  induction s as [|c s IH].
  - simpl. rewrite elem_of_nil. split; [done|tauto].
  - change (str_contains "N" (String c s)) with
      ((if Ascii.ascii_dec "N" c then String.prefix "" s else false) ||
       str_contains "N" s).
    change (list_ascii_of_string (String c s)) with
      (c :: list_ascii_of_string s).
    rewrite elem_of_cons, <-IH.
    destruct (Ascii.ascii_dec "N" c) as [<-|Hne]; simpl.
    + replace (String.prefix "" s) with true by (by destruct s).
      split; [by left|done].
    + split; [by right|]. intros [?|?]; [done|done].
Qed.

Lemma filter_ext_in {A} (P Q : A → Prop) `{!∀ x, Decision (P x)}
    `{!∀ x, Decision (Q x)} (l : list A) :
  (∀ x, x ∈ l → P x ↔ Q x) → filter P l = filter Q l.
Proof.
  induction l as [|x l IH]; intros Hext; [done|].
  rewrite !filter_cons, IH by (intros y Hy; apply Hext; by right).
  destruct (decide (P x)) as [HP|HP], (decide (Q x)) as [HQ|HQ]; try done;
    apply (Hext x) in HP || apply (Hext x) in HQ; done || by left.
Qed.

Lemma filter_fmap_snd {A} (P : A → Prop) `{!∀ x, Decision (P x)}
    (frame : list (nat * A)) :
  (filter (λ ir, P ir.2) frame).*2 = filter P frame.*2.
Proof.
  induction frame as [|[i r] frame IH]; [done|].
  rewrite fmap_cons, !filter_cons. simpl.
  destruct (decide (P r)); by rewrite ?fmap_cons, IH.
Qed.

Lemma range_index_labels {A} (rows : list A) :
  (range_index rows).*1 = seq 0 (length rows).
Proof.
  unfold range_index. rewrite fmap_imap.
  rewrite <-(list_fmap_id (seq 0 (length rows))), <-imap_seq_0. done.
Qed.

Lemma range_index_rows {A} (rows : list A) : (range_index rows).*2 = rows.
Proof.
  unfold range_index. rewrite fmap_imap.
  rewrite (imap_ext _ (const id)) by done.
  by rewrite imap_const, list_fmap_id.
Qed.

Lemma NoDup_labels_functional {A} (frame : list (nat * A)) i r1 r2 :
  NoDup frame.*1 → (i, r1) ∈ frame → (i, r2) ∈ frame → r1 = r2.
Proof.
  induction frame as [|[j r] frame IH]; intros Hnd H1 H2;
    [by apply elem_of_nil in H1|].
  rewrite fmap_cons in Hnd. apply NoDup_cons in Hnd as [Hj Hnd].
  assert (∀ r', (j, r') ∉ frame) as Hfresh.
  { intros r' Hin. apply Hj. by apply (list_elem_of_fmap_2' fst _ (j, r')). }
  apply elem_of_cons in H1 as [H1|H1]; apply elem_of_cons in H2 as [H2|H2];
    simplify_eq; try done.
  - by destruct (Hfresh r2).
  - by destruct (Hfresh r1).
  - by apply IH.
Qed.

(** Dropping the labels of the rows that a mask selects removes exactly
    those rows, when no label occurs twice. *)
Lemma drop_labels_boolean_index {A} (mask : A → bool)
    (frame : list (nat * A)) :
  NoDup frame.*1 →
  drop_labels (index (boolean_index mask frame)) frame =
  filter (λ ir, mask ir.2 ≠ true) frame.
Proof.
  intros Hnd. unfold drop_labels, index, boolean_index.
  apply filter_ext_in. intros [i r] Hir. simpl. split.
  - intros Hnot Hmask. apply Hnot.
    apply (list_elem_of_fmap_2' fst _ (i, r)); [|done].
    by apply list_elem_of_filter.
  - intros Hmask ([i' r'] & Hi & Hin)%list_elem_of_fmap. simpl in Hi.
    subst i'. apply list_elem_of_filter in Hin as [Hm Hin]. simpl in Hm.
    by rewrite (NoDup_labels_functional frame i r r' Hnd Hir Hin) in Hmask.
Qed.

Lemma bcalib_cleaned_rows (rows : list JoinedRow) :
  (bcalib_cleaned (range_index rows)).*2 =
  filter (λ r, ¬ has_uncalled (bc r)) rows.
Proof.
  unfold bcalib_cleaned. rewrite drop_labels_boolean_index
    by (rewrite range_index_labels; apply NoDup_seq).
  etrans; [exact (filter_fmap_snd (λ r, str_contains "N" (bc r) ≠ true)
                    (range_index rows))|].
  rewrite range_index_rows. apply filter_ext_in.
  intros r _. by rewrite str_contains_uncalled.
Qed.

(** C4. The filter removes exactly the joined rows whose barcode holds the
    character [N]; the test is on that very character, so a lower-case
    [n] is not uncalled; and no record that [collapse] makes of the rows
    that are left has an [N] in its barcode. *)
Theorem bcalib_cleaned_uncalled (rows : list JoinedRow) :
  (bcalib_cleaned (range_index rows)).*2 =
    filter (λ r, ¬ has_uncalled (bc r)) rows ∧
  (∀ r, r ∈ (bcalib_cleaned (range_index rows)).*2 ↔
        r ∈ rows ∧ ¬ has_uncalled (bc r)) ∧
  ¬ has_uncalled "n" ∧ str_contains "N" "n" = false ∧
  (∀ k n, (k, n) ∈ collapse (bcalib_cleaned (range_index rows)).*2 →
          ¬ has_uncalled k.2).
Proof.
  rewrite bcalib_cleaned_rows. split_and!.
  - done.
  - intros r. rewrite list_elem_of_filter. tauto.
  - unfold has_uncalled. simpl. rewrite list_elem_of_singleton. done.
  - done.
  - intros k n [Hin _]%groupby_size_elem_of.
    apply list_elem_of_fmap in Hin as (r & -> & Hr).
    apply list_elem_of_filter in Hr as [Hr _]. done.
Qed.

(** ** The whole script *)

Lemma filter_all_uncalled (rows : list JoinedRow) :
  (∀ r, r ∈ rows → has_uncalled (bc r)) →
  filter (λ r, ¬ has_uncalled (bc r)) rows = [].
Proof.
  induction rows as [|r rs IH]; intros Hall; [done|].
  rewrite filter_cons.
  rewrite decide_False by (intros Hr; apply Hr, Hall; left).
  apply IH. intros r' Hr'. apply Hall. by right.
Qed.

(** C10. When the joined table is not empty and every joined barcode holds
    an [N], the script raises nothing and writes the empty text: the test
    for an empty table is made on the joined rows, before the filter. *)
Theorem main_all_uncalled (library : list SeqRecord.t) (alns : list AlnRow) :
  merge (bcs library) alns ≠ [] →
  (∀ r, r ∈ merge (bcs library) alns → has_uncalled (bc r)) →
  main library alns = inr "".
Proof.
  intros Hne Hall. unfold main, bcalib.
  rewrite decide_False by done.
  rewrite bcalib_cleaned_rows.
  by rewrite filter_all_uncalled.
Qed.

Lemma main_all_uncalled_witness :
  merge (bcs [SeqRecord.mk "read1" "AANG"])
    [mkAlnRow "chr1" 100 110 "read1" "0" "+"] ≠ [] ∧
  main [SeqRecord.mk "read1" "AANG"]
    [mkAlnRow "chr1" 100 110 "read1" "0" "+"] = inr "".
Proof.
  split; [by vm_compute|].
  apply main_all_uncalled; [by vm_compute|].
  intros r Hr. vm_compute in Hr.
  apply list_elem_of_singleton in Hr as ->.
  apply str_contains_uncalled. reflexivity.
Defined.

(** ** Lines and fields *)

Lemma split_fields_nonempty (sep : ascii) (line : string) :
  split_fields sep line ≠ [].
Proof.
  destruct line as [|c rest]; simpl; [done|].
  case_decide; [done|]. by destruct (split_fields sep rest).
Qed.

(** ** The writer *)

Lemma write_rows_series (series : list (key * nat)) :
  write_rows columns tab
    [Name "chrom"; Name "start"; Name "stop"; Name "strand"; Name "bc";
     Name "ndupes"]
    (df_rows (reset_index series)) =
  inr (foldr (λ kn out, csv_line tab (record_cells kn) +:+ out) "" series).
Proof.
  induction series as [|[[[[[c s] e] st] b] n] series IH]; [done|].
  cbn [reset_index df_rows] in *. rewrite fmap_cons.
  cbn [write_rows foldr]. rewrite IH. reflexivity.
Qed.

Lemma to_csv_series (series : list (key * nat)) :
  to_csv columns tab (rename (Level 0) (Name "ndupes") (reset_index series)) =
  inr (foldr (λ kn out, csv_line tab (record_cells kn) +:+ out) "" series).
Proof. apply write_rows_series. Qed.

Lemma any_char_app (p : ascii → bool) (s t : string) :
  any_char p (s +:+ t) = any_char p s || any_char p t.
Proof.
  induction s as [|c s IH]; [done|].
  change (String c s +:+ t) with (String c (s +:+ t)).
  simpl. by rewrite IH, orb_assoc.
Qed.

Lemma digit_not_special (d : N) :
  (d < 10)%N → special tab (pretty_N_char d) = false.
Proof.
  intros Hd.
  assert (d = 0 ∨ d = 1 ∨ d = 2 ∨ d = 3 ∨ d = 4 ∨ d = 5 ∨ d = 6 ∨ d = 7
          ∨ d = 8 ∨ d = 9)%N as Hcases by lia.
  repeat (destruct Hcases as [->|Hcases]; [reflexivity|]).
  by subst.
Qed.

Lemma plain_pretty_N_go (x : N) (s : string) :
  plain s → plain (pretty_N_go x s).
Proof.
  unfold plain. revert s.
  induction (N.lt_wf_0 x) as [x _ IH]; intros s Hs.
  destruct (decide (0 < x)%N) as [Hx|Hx].
  - rewrite pretty_N_go_step by done. apply IH.
    + by apply N.div_lt.
    + simpl. rewrite Hs, digit_not_special; [done|].
      by apply N.mod_lt.
  - assert (x = 0%N) as -> by lia. by rewrite pretty_N_go_0.
Qed.

Lemma plain_pretty_Z (z : Z) : plain (pretty z).
Proof.
  destruct z as [|x|x]; unfold pretty, pretty_Z; [done|..].
  - unfold pretty, pretty_positive, pretty, pretty_N.
    rewrite decide_False by done. by apply plain_pretty_N_go.
  - unfold plain. rewrite any_char_app. simpl.
    unfold pretty, pretty_positive, pretty, pretty_N.
    rewrite decide_False by done. by apply plain_pretty_N_go.
Qed.

Lemma csv_field_plain (s : string) : plain s → csv_field tab s = s.
Proof. unfold plain, csv_field. by intros ->. Qed.

Lemma split_fields_plain (s : string) : plain s → split_fields tab s = [s].
Proof.
  unfold plain. induction s as [|c s IH]; [done|].
  cbn [split_fields any_char]. intros [Hc Hs]%orb_false_elim.
  rewrite IH by done.
  rewrite decide_False; [done|]. intros ->. by vm_compute in Hc.
Qed.

Lemma split_fields_plain_app (s t : string) :
  plain s →
  split_fields tab (s +:+ String tab t) = s :: split_fields tab t.
Proof.
  unfold plain. induction s as [|c s IH].
  - intros _. change ("" +:+ String tab t) with (String tab t).
    cbn [split_fields]. by rewrite decide_True.
  - change (String c s +:+ String tab t) with (String c (s +:+ String tab t)).
    cbn [split_fields any_char]. intros [Hc Hs]%orb_false_elim.
    rewrite IH by done.
    rewrite decide_False; [done|]. intros ->. by vm_compute in Hc.
Qed.

Lemma split_fields_plain_concat (s t : string) :
  plain s →
  split_fields tab (s +:+ String tab "" +:+ t) = s :: split_fields tab t.
Proof. apply split_fields_plain_app. Qed.

(** C9. The text that the script writes is one line per collapsed record,
    in the order of the records and with nothing before them; a line is
    the six cells chrom, start, stop, barcode, ndupes, strand in that
    order, separated by tabs and ended by a newline.  When the three text
    cells are plain, the line splits at the tabs into exactly those six
    fields. *)
Theorem to_csv_six_fields (cleaned : list JoinedRow) :
  to_csv columns tab (merged cleaned) =
    inr (foldr (λ kn out, csv_line tab (record_cells kn) +:+ out) ""
           (collapse cleaned)) ∧
  ∀ c s e st b n, plain c → plain st → plain b →
    let fields := [c; pretty s; pretty e; b; pretty (Z.of_nat n); st] in
    csv_line tab (record_cells ((c, s, e, st, b), n)) =
      String.concat (String tab "") fields +:+ String newline "" ∧
    split_fields tab (String.concat (String tab "") fields) = fields.
Proof.
  split; [apply to_csv_series|].
  intros c s e st b n Hc Hst Hb fields. subst fields. split.
  - unfold csv_line, record_cells. rewrite !fmap_cons, fmap_nil. simpl.
    by rewrite !csv_field_plain by (done || apply plain_pretty_Z).
  - cbn [String.concat].
    repeat (rewrite split_fields_plain_concat
              by (done || apply plain_pretty_Z);
            f_equal).
    by apply split_fields_plain.
Qed.

Lemma to_csv_six_fields_witness :
  to_csv columns tab
    (merged [mkJoinedRow "read1" "AAGG" "chr1" 100 110 "0" "+";
             mkJoinedRow "read2" "AAGG" "chr1" 100 110 "0" "+";
             mkJoinedRow "read3" "AAGG" "chr1" 100 110 "0" "+"]) =
    inr (String.concat (String tab "")
           ["chr1"; "100"; "110"; "AAGG"; "3"; "+"] +:+ String newline "") ∧
  split_fields tab
    (String.concat (String tab "") ["chr1"; "100"; "110"; "AAGG"; "3"; "+"]) =
    ["chr1"; "100"; "110"; "AAGG"; "3"; "+"].
Proof.
  pose proof (to_csv_six_fields
    [mkJoinedRow "read1" "AAGG" "chr1" 100 110 "0" "+";
     mkJoinedRow "read2" "AAGG" "chr1" 100 110 "0" "+";
     mkJoinedRow "read3" "AAGG" "chr1" 100 110 "0" "+"]) as [Hout Hline].
  split.
  - rewrite Hout. reflexivity.
  - apply (Hline "chr1" 100%Z 110%Z "+" "AAGG" 3); reflexivity.
Defined.

(** ** The library as a mapping, when the read identifiers are unique

    The mapping of the specification and the table of the script give the
    same joined rows for an alignment as long as no read identifier occurs
    twice in the library. *)

Lemma library_dict_lookup (records : list BcRow) (m : gmap string string)
    (i : string) :
  foldl (λ m b, <[bcs_read_id b := bcs_bc b]> m) m records !! i =
  match last (filter (λ b, bcs_read_id b = i) records) with
  | Some b => Some (bcs_bc b)
  | None => m !! i
  end.
Proof.
  revert m. induction records as [|b records IH]; intros m; [done|].
  simpl. rewrite IH, filter_cons.
  destruct (decide (bcs_read_id b = i)) as [<-|Hne].
  - rewrite last_cons, lookup_insert_eq.
    by destruct (last (filter _ records)).
  - rewrite lookup_insert_ne by done. done.
Qed.

Lemma filter_unique_id (records : list BcRow) (i : string) :
  NoDup (bcs_read_id <$> records) →
  filter (λ b, bcs_read_id b = i) records =
  option_list (last (filter (λ b, bcs_read_id b = i) records)).
Proof.
  induction records as [|b records IH]; intros Hnd; [done|].
  rewrite fmap_cons in Hnd. apply NoDup_cons in Hnd as [Hb Hnd].
  rewrite filter_cons. destruct (decide (bcs_read_id b = i)) as [<-|Hne].
  - assert (filter (λ b', bcs_read_id b' = bcs_read_id b) records = [])
      as ->; [|done].
    destruct (filter _ records) as [|b' l] eqn:Hf; [done|].
    assert (b' ∈ filter (λ b', bcs_read_id b' = bcs_read_id b) records)
      as [Hid Hin]%list_elem_of_filter by (rewrite Hf; left).
    destruct Hb. rewrite <-Hid. by apply list_elem_of_fmap_2.
  - by apply IH.
Qed.

Lemma merge_single_unique_ids (records : list BcRow) (a : AlnRow) :
  NoDup (bcs_read_id <$> records) →
  merge records [a] = join_dict (library_dict records) [a].
Proof.
  intros Hnd. rewrite merge_single, (filter_unique_id _ _ Hnd).
  unfold join_dict, library_dict. simpl. rewrite library_dict_lookup.
  destruct (last (filter _ records)) as [b|] eqn:Hlast; simpl; [|done].
  assert (b ∈ filter (λ b, bcs_read_id b = alns_read_id a) records)
    as [Hid _]%list_elem_of_filter.
  { apply last_Some in Hlast as [l ->]. apply elem_of_app. right. left. }
  unfold join_row. simpl. by rewrite Hid.
Qed.

(** ** The scenarios of the specification *)

(** Three alignments of one interval and strand whose reads share the
    barcode AAGG give one line with the count 3. *)
Example scenario_A :
  main [SeqRecord.mk "read1" "AAGG"; SeqRecord.mk "read2" "AAGG";
        SeqRecord.mk "read3" "AAGG"]
       [mkAlnRow "chr1" 100 110 "read1" "0" "+";
        mkAlnRow "chr1" 100 110 "read2" "0" "+";
        mkAlnRow "chr1" 100 110 "read3" "0" "+"] =
  inr (String.concat (String tab "") ["chr1"; "100"; "110"; "AAGG"; "3"; "+"]
       +:+ String newline "").
Proof. reflexivity. Qed.

(** A read whose barcode holds an N is dropped. *)
Example scenario_B :
  main [SeqRecord.mk "read1" "AAGG"; SeqRecord.mk "read2" "AANG"]
       [mkAlnRow "chr1" 100 110 "read1" "0" "+";
        mkAlnRow "chr1" 100 110 "read2" "0" "+"] =
  inr (String.concat (String tab "") ["chr1"; "100"; "110"; "AAGG"; "1"; "+"]
       +:+ String newline "").
Proof. reflexivity. Qed.

(** An alignment without a library record is left out; nothing is raised. *)
Example scenario_C :
  main [SeqRecord.mk "read1" "AAGG"]
       [mkAlnRow "chr1" 100 110 "read1" "0" "+";
        mkAlnRow "chr2" 5 15 "read9" "0" "-"] =
  inr (String.concat (String tab "") ["chr1"; "100"; "110"; "AAGG"; "1"; "+"]
       +:+ String newline "").
Proof. reflexivity. Qed.

(** A library and alignments without a common read identifier raise. *)
Example scenario_D :
  main [SeqRecord.mk "read1" "AAGG"]
       [mkAlnRow "chr1" 100 110 "read7" "0" "+"] =
  inl no_common_entries.
Proof. reflexivity. Qed.

(** The lines come out in the order of the keys: chrom as text, then
    start and stop as numbers, then strand and barcode as text. *)
Example output_order :
  (collapse
     [mkJoinedRow "r1" "TT" "chr2" 5 9 "0" "+";
      mkJoinedRow "r2" "CC" "chr10" 30 40 "0" "-";
      mkJoinedRow "r3" "AA" "chr10" 4 40 "0" "+";
      mkJoinedRow "r4" "AA" "chr10" 30 40 "0" "+";
      mkJoinedRow "r5" "CC" "chr10" 30 40 "0" "-"]).*1 =
  [("chr10", 4, 40, "+", "AA"); ("chr10", 30, 40, "+", "AA");
   ("chr10", 30, 40, "-", "CC"); ("chr2", 5, 9, "+", "TT")]%Z.
Proof. reflexivity. Qed.

(** * The tables as pandas holds them *)

(** ** The grouping, for columns of any type *)

Lemma filter_Forall_id {A} (P : A → Prop) `{!∀ x, Decision (P x)}
    (l : list A) :
  Forall P l → filter P l = l.
Proof.
  induction 1 as [|x l Hx Hall IH]; [done|].
  rewrite filter_cons, decide_True by done. by rewrite IH.
Qed.

Lemma length_omap_is_Some {A B} (f : A → option B) (l : list A) :
  length (omap f l) = length (filter (λ x, is_Some (f x)) l).
Proof.
  induction l as [|x l IH]; [done|].
  rewrite filter_cons. cbn [omap list_omap].
  destruct (f x) as [y|] eqn:Hx.
  - rewrite decide_True by (by eexists). simpl. by rewrite <-IH.
  - rewrite decide_False by (by intros [? ?]). done.
Qed.

Lemma group_size_omap {A K} `{EqDecision K} (f : A → option K) (k : K)
    (l : list A) :
  group_size k (omap f l) = length (filter (λ x, f x = Some k) l).
Proof.
  unfold group_size. induction l as [|x l IH]; [done|].
  rewrite filter_cons. cbn [omap list_omap].
  destruct (f x) as [y|] eqn:Hx.
  - rewrite filter_cons.
    destruct (decide (k = y)) as [->|Hne].
    + rewrite decide_True by done. simpl. by rewrite <-IH.
    + rewrite decide_False by congruence. done.
  - rewrite decide_False by done. done.
Qed.

Lemma ndupes_of_groupby_size {K} `{Lexico K, !TrichotomyT (@lexico K _),
    !EqDecision K, !StrictOrder (@lexico K _)} (ks : list K) (k : K) :
  ndupes_of (groupby_size ks) k = group_size k ks.
Proof.
  unfold groupby_size.
  assert (∀ gs, ndupes_of ((λ k', (k', group_size k' ks)) <$> gs) k =
                if decide (k ∈ gs) then group_size k ks else 0) as Hgo.
  { induction gs as [|g gs IH].
    - by rewrite decide_False by apply not_elem_of_nil.
    - rewrite fmap_cons. cbn [ndupes_of].
      destruct (decide (g = k)) as [->|Hne].
      + rewrite decide_True; [done|by left].
      + rewrite IH. destruct (decide (k ∈ gs)) as [Hin|Hin].
        * rewrite decide_True; [done|by right].
        * rewrite decide_False; [done|].
          intros [->|?]%elem_of_cons; done. }
  rewrite Hgo. case_decide as Hin; [done|].
  rewrite group_keys_elem_of in Hin. by rewrite group_size_absent.
Qed.

Section columns_facts.
Context {Chrom Start Stop Score Strand : Type}.
Context `{!Lexico Chrom, !TrichotomyT (@lexico Chrom _), !EqDecision Chrom,
          !StrictOrder (@lexico Chrom _)}.
Context `{!Lexico Start, !TrichotomyT (@lexico Start _), !EqDecision Start,
          !StrictOrder (@lexico Start _)}.
Context `{!Lexico Stop, !TrichotomyT (@lexico Stop _), !EqDecision Stop,
          !StrictOrder (@lexico Stop _)}.
Context `{!Lexico Strand, !TrichotomyT (@lexico Strand _),
          !EqDecision Strand, !StrictOrder (@lexico Strand _)}.

Implicit Types
  (cleaned rows : list (BcRow * AlnCells Chrom Start Stop Score Strand)).
Implicit Types (k : frame_key Chrom Start Stop Strand).
Implicit Types (r : BcRow * AlnCells Chrom Start Stop Score Strand).

Lemma frame_key_lt_lexico k1 k2 :
  frame_key_lt k1 k2 ↔ lexico k1 k2.
Proof.
  destruct k1 as [[[[c1 s1] e1] st1] b1], k2 as [[[[c2 s2] e2] st2] b2].
  unfold frame_key_lt, text_lt.
  unfold lexico at 5, prod_lexico; simpl.
  unfold lexico at 5, prod_lexico; simpl.
  unfold lexico at 5, prod_lexico; simpl.
  unfold lexico at 5, prod_lexico; simpl.
  unfold lexico at 9, string_lexico.
  split; intros Hlt.
  - destruct Hlt as [?|(-> & [?|(-> & [?|(-> & [?|(-> & ?)])])])]; eauto 10.
  - destruct Hlt
      as [[[[?|[? ?]]|[? ?]]|[? ?]]|[? ?]]; simplify_eq/=; eauto 10.
Qed.

Lemma present_key_None r :
  present_key r = None ↔
  chrom_cell r.2 = None ∨ start_cell r.2 = None ∨ stop_cell r.2 = None ∨
  strand_cell r.2 = None.
Proof.
  unfold present_key.
  destruct (chrom_cell r.2), (start_cell r.2), (stop_cell r.2),
    (strand_cell r.2); simpl; split; intros H; try done; eauto;
    destruct H as [?|[?|[?|?]]]; done.
Qed.

(** C1, as the script has it.  [groupby] partitions the rows that have all
    their key cells by the key (chrom, start, stop, strand, bc), the cells
    as pandas holds them: a key is in the output exactly when some row has
    it, no key is output twice, the count of a key is the number of rows
    that have it (at least one), and the counts add up to the number of
    rows that have all their key cells; to the number of all rows, then,
    when no key cell is missing.  A row is left out exactly when its
    chrom, start, stop or strand is missing. *)
Theorem groupby_dropna_partition cleaned :
  (∀ k, k ∈ (groupby_dropna cleaned).*1 ↔
        ∃ r, r ∈ cleaned ∧ present_key r = Some k) ∧
  NoDup (groupby_dropna cleaned).*1 ∧
  (∀ k n, (k, n) ∈ groupby_dropna cleaned →
     n = length (filter (λ r, present_key r = Some k) cleaned) ∧ 1 ≤ n) ∧
  sum_list (groupby_dropna cleaned).*2 =
    length (filter (λ r, is_Some (present_key r)) cleaned) ∧
  (Forall (λ r, is_Some (present_key r)) cleaned →
   sum_list (groupby_dropna cleaned).*2 = length cleaned) ∧
  (∀ r, present_key r = None ↔
     chrom_cell r.2 = None ∨ start_cell r.2 = None ∨
     stop_cell r.2 = None ∨ strand_cell r.2 = None).
Proof.
  unfold groupby_dropna. split_and!.
  - intros k. rewrite groupby_size_keys, group_keys_elem_of.
    rewrite list_elem_of_omap. done.
  - rewrite groupby_size_keys. apply group_keys_NoDup.
  - intros k n [Hin ->]%groupby_size_elem_of. split.
    + apply group_size_omap.
    + by apply group_size_pos.
  - by rewrite groupby_size_sum, length_omap_is_Some.
  - intros Hall.
    by rewrite groupby_size_sum, length_omap_is_Some, filter_Forall_id.
  - apply present_key_None.
Qed.

(** C2, as the script has it.  The keys of the output are strictly
    ascending, every earlier key below every later one, in the order that
    compares the columns from left to right, each column in the order of
    the values that pandas holds for it; so no key occurs twice.  For the
    columns of the data model (text for [chrom] and [strand], integers for
    [start] and [stop]) that order is [key_lt], which compares the
    chromosomes as text; for a [chrom] column held as integers it compares
    the chromosomes as numbers. *)
Theorem groupby_dropna_sorted cleaned :
  StronglySorted frame_key_lt (groupby_dropna cleaned).*1 ∧
  NoDup (groupby_dropna cleaned).*1 ∧
  (∀ k1 k2 : frame_key string Z Z string,
     frame_key_lt k1 k2 ↔ key_lt k1 k2) ∧
  (∀ k1 k2 : frame_key Z Z Z string,
     frame_key_lt k1 k2 ↔ key_lt_numeric_chrom k1 k2).
Proof.
  unfold groupby_dropna. rewrite groupby_size_keys. split_and!.
  - generalize (group_keys_StronglySorted (omap present_key cleaned)).
    induction 1 as [|k ks Hs IH Hall]; constructor; [done|].
    eapply Forall_impl; [done|]. intros k'. apply frame_key_lt_lexico.
  - apply group_keys_NoDup.
  - by intros [[[[c1 s1] e1] st1] b1] [[[[c2 s2] e2] st2] b2].
  - by intros [[[[c1 s1] e1] st1] b1] [[[[c2 s2] e2] st2] b2].
Qed.

(** X6. The count that the output holds for a key is the number of rows
    with that key (a row with a missing key cell has none), nothing for a
    key that no row has; so grouping two batches of rows apart and adding
    the counts key by key gives the counts of grouping them together. *)
Theorem groupby_dropna_app_counts rows1 rows2 k :
  ndupes_of (groupby_dropna rows1) k =
    length (filter (λ r, present_key r = Some k) rows1) ∧
  ndupes_of (groupby_dropna (rows1 ++ rows2)) k =
    ndupes_of (groupby_dropna rows1) k + ndupes_of (groupby_dropna rows2) k.
Proof.
  unfold groupby_dropna.
  rewrite !ndupes_of_groupby_size, !group_size_omap.
  by rewrite filter_app, length_app.
Qed.

(** X7. There are at most as many records in the output as rows, and as
    many exactly when every row has all its key cells and no two rows
    have the same key. *)
Theorem groupby_dropna_length rows :
  length (groupby_dropna rows) ≤ length rows ∧
  (length (groupby_dropna rows) = length rows ↔
     Forall (λ r, is_Some (present_key r)) rows ∧
     NoDup (omap present_key rows)).
Proof.
  unfold groupby_dropna, groupby_size. rewrite length_fmap.
  assert (group_keys (omap present_key rows) ⊆+ omap present_key rows)
    as Hsub.
  { apply NoDup_submseteq; [apply group_keys_NoDup|].
    intros x. by rewrite group_keys_elem_of. }
  pose proof (submseteq_length _ _ Hsub) as Hle.
  pose proof (length_omap_is_Some present_key rows) as Hlen.
  pose proof (length_filter (λ r, is_Some (present_key r)) rows) as Hfl.
  split; [lia|]. split.
  - intros Heq. split.
    + apply Forall_forall. intros r Hr.
      destruct (decide (is_Some (present_key r))) as [|Hno]; [done|].
      pose proof (length_filter_lt
        (λ r, is_Some (present_key r)) rows r Hr Hno). lia.
    + rewrite <-(submseteq_length_Permutation _ _ Hsub) by lia.
      apply group_keys_NoDup.
  - intros [Hall Hnd].
    assert (filter (λ r, is_Some (present_key r)) rows = rows) as Hf.
    { clear -Hall. induction Hall as [|r rows Hr Hall IH]; [done|].
      rewrite filter_cons, decide_True by done. by rewrite IH. }
    rewrite Hf in Hlen. rewrite <-Hlen.
    apply Permutation_length, NoDup_Permutation;
      [apply group_keys_NoDup|done|].
    intros x. by rewrite group_keys_elem_of.
Qed.

End columns_facts.

(** On tables typed as in the data model, [groupby_dropna] is [collapse]:
    no row is left out and the order is [key_lt]. *)
Lemma collapse_as_frame (rows : list JoinedRow) :
  groupby_dropna (cells_of <$> rows) = collapse rows.
Proof.
  unfold groupby_dropna, collapse. f_equal.
  induction rows as [|r rows IH]; [done|].
  rewrite !fmap_cons. cbn [omap list_omap]. by rewrite <-IH.
Qed.

(** C1, witness.  Three rows of one key, the strand of the second one
    missing: the output counts two rows. *)
Lemma groupby_dropna_partition_witness :
  sum_list (groupby_dropna
    [(mkBcRow "read1" "AAGG",
      mkAlnCells (Some "chr1") (Some 100%Z) (Some 110%Z) (Some "0")
        (Some "+"));
     (mkBcRow "read2" "AAGG",
      mkAlnCells (Some "chr1") (Some 100%Z) (Some 110%Z) (Some "0") None);
     (mkBcRow "read3" "AAGG",
      mkAlnCells (Some "chr1") (Some 100%Z) (Some 110%Z) (Some "0")
        (Some "+"))]).*2 = 2.
Proof.
  destruct (groupby_dropna_partition (Score:=string)
    [(mkBcRow "read1" "AAGG",
      mkAlnCells (Some "chr1") (Some 100%Z) (Some 110%Z) (Some "0")
        (Some "+"));
     (mkBcRow "read2" "AAGG",
      mkAlnCells (Some "chr1") (Some 100%Z) (Some 110%Z) (Some "0") None);
     (mkBcRow "read3" "AAGG",
      mkAlnCells (Some "chr1") (Some 100%Z) (Some 110%Z) (Some "0")
        (Some "+"))]) as (_ & _ & _ & Hsum & _ & _).
  rewrite Hsum. reflexivity.
Defined.

(** C1, counterexample.  Two rows that passed the filter, the strand of
    the second one missing (its line had five fields, or an empty last
    field): the second row is in no group, and the counts of the output
    add up to one, where the specification has them add up to the number
    of rows, two. *)
Lemma groupby_dropna_missing_strand :
  groupby_dropna
    [(mkBcRow "read1" "AAGG",
      mkAlnCells (Some "chr1") (Some 100%Z) (Some 110%Z) (Some 0%Z)
        (Some "+"));
     (mkBcRow "read2" "AAGG",
      mkAlnCells (Some "chr1") (Some 100%Z) (Some 110%Z) (Some 0%Z) None)] =
    [(("chr1", 100%Z, 110%Z, "+", "AAGG"), 1)] ∧
  sum_list (groupby_dropna
    [(mkBcRow "read1" "AAGG",
      mkAlnCells (Some "chr1") (Some 100%Z) (Some 110%Z) (Some 0%Z)
        (Some "+"));
     (mkBcRow "read2" "AAGG",
      mkAlnCells (Some "chr1") (Some 100%Z) (Some 110%Z) (Some 0%Z)
        None)]).*2 ≠
  length
    [(mkBcRow "read1" "AAGG",
      mkAlnCells (Some "chr1") (Some 100%Z) (Some 110%Z) (Some 0%Z)
        (Some "+"));
     (mkBcRow "read2" "AAGG",
      mkAlnCells (Some "chr1") (Some 100%Z) (Some 110%Z) (Some 0%Z)
        (None : option string))].
Proof. split; [reflexivity|]. by vm_compute. Qed.

(** C2, witness.  With a [chrom] column of text the order is that of the
    text: chr10 comes before chr2. *)
Lemma groupby_dropna_sorted_witness :
  StronglySorted frame_key_lt
    (groupby_dropna
       [(mkBcRow "read1" "AAGG",
         mkAlnCells (Some "chr2") (Some 5%Z) (Some 9%Z) (Some "0")
           (Some "+"));
        (mkBcRow "read2" "CCTT",
         mkAlnCells (Some "chr10") (Some 30%Z) (Some 40%Z) (Some "0")
           (Some "-"))]).*1 ∧
  (groupby_dropna
       [(mkBcRow "read1" "AAGG",
         mkAlnCells (Some "chr2") (Some 5%Z) (Some 9%Z) (Some "0")
           (Some "+"));
        (mkBcRow "read2" "CCTT",
         mkAlnCells (Some "chr10") (Some 30%Z) (Some 40%Z) (Some "0")
           (Some "-"))]).*1 =
  [("chr10", 30, 40, "-", "CCTT"); ("chr2", 5, 9, "+", "AAGG")]%Z.
Proof.
  split; [|reflexivity].
  apply (groupby_dropna_sorted (Score:=string)
    [(mkBcRow "read1" "AAGG",
      mkAlnCells (Some "chr2") (Some 5%Z) (Some 9%Z) (Some "0")
        (Some "+"));
     (mkBcRow "read2" "CCTT",
      mkAlnCells (Some "chr10") (Some 30%Z) (Some 40%Z) (Some "0")
        (Some "-"))]).
Defined.

(** C2, counterexample.  An all-digit [chrom] column is held as integers:
    the chromosome 2 comes before the chromosome 10, and the records as
    they are written, with the chromosome as text, are not ascending in
    the order of the specification, which compares [chrom] as text. *)
Lemma groupby_dropna_numeric_chrom :
  (groupby_dropna
     [(mkBcRow "read1" "AAGG",
       mkAlnCells (Some 10%Z) (Some 100%Z) (Some 110%Z) (Some 0%Z)
         (Some "+"));
      (mkBcRow "read2" "AAGG",
       mkAlnCells (Some 2%Z) (Some 100%Z) (Some 110%Z) (Some 0%Z)
         (Some "+"))]).*1 =
  [(2, 100, 110, "+", "AAGG"); (10, 100, 110, "+", "AAGG")]%Z ∧
  ¬ StronglySorted key_lt
      ((λ k : frame_key Z Z Z string,
          (pretty k.1.1.1.1, k.1.1.1.2, k.1.1.2, k.1.2, k.2)) <$>
       (groupby_dropna
          [(mkBcRow "read1" "AAGG",
            mkAlnCells (Some 10%Z) (Some 100%Z) (Some 110%Z) (Some 0%Z)
              (Some "+"));
           (mkBcRow "read2" "AAGG",
            mkAlnCells (Some 2%Z) (Some 100%Z) (Some 110%Z) (Some 0%Z)
              (Some "+"))]).*1).
Proof.
  split; [reflexivity|].
  intros Hs. vm_compute in Hs.
  apply StronglySorted_inv in Hs as [_ Hall].
  apply Forall_cons in Hall as [Hlt _].
  destruct Hlt as [Hlt|[Heq _]]; [by vm_compute in Hlt|done].
Qed.

(** X6, witness. *)
Lemma groupby_dropna_app_counts_witness :
  ndupes_of (groupby_dropna
    ([(mkBcRow "read1" "AAGG",
       mkAlnCells (Some "chr1") (Some 100%Z) (Some 110%Z) (Some "0")
         (Some "+"))] ++
     [(mkBcRow "read2" "AAGG",
       mkAlnCells (Some "chr1") (Some 100%Z) (Some 110%Z) (Some "7")
         (Some "+"));
      (mkBcRow "read3" "AAGG",
       mkAlnCells (Some "chr1") (Some 100%Z) (Some 110%Z) (Some "0")
         None)]))
    ("chr1", 100%Z, 110%Z, "+", "AAGG") = 2.
Proof.
  destruct (groupby_dropna_app_counts (Score:=string)
    [(mkBcRow "read1" "AAGG",
       mkAlnCells (Some "chr1") (Some 100%Z) (Some 110%Z) (Some "0")
         (Some "+"))]
    [(mkBcRow "read2" "AAGG",
       mkAlnCells (Some "chr1") (Some 100%Z) (Some 110%Z) (Some "7")
         (Some "+"));
      (mkBcRow "read3" "AAGG",
       mkAlnCells (Some "chr1") (Some 100%Z) (Some 110%Z) (Some "0")
         None)]
    ("chr1", 100%Z, 110%Z, "+", "AAGG")) as [_ Happ].
  rewrite Happ. reflexivity.
Defined.

(** X7, witness. *)
Lemma groupby_dropna_length_witness :
  length (groupby_dropna
    [(mkBcRow "read1" "AAGG",
      mkAlnCells (Some "chr1") (Some 100%Z) (Some 110%Z) (Some "0")
        (Some "+"));
     (mkBcRow "read2" "AAGG",
      mkAlnCells (Some "chr1") (Some 100%Z) (Some 110%Z) (Some "0")
        (None : option string))]) ≤ 2.
Proof.
  apply (groupby_dropna_length (Score:=string)
    [(mkBcRow "read1" "AAGG",
      mkAlnCells (Some "chr1") (Some 100%Z) (Some 110%Z) (Some "0")
        (Some "+"));
     (mkBcRow "read2" "AAGG",
      mkAlnCells (Some "chr1") (Some 100%Z) (Some 110%Z) (Some "0")
        None)]).
Defined.

(** ** The join, whatever the [read_id] column of the alignments holds *)

Lemma bind_nil_const {A B} (l : list A) : l ≫= (λ _, @nil B) = [].
Proof. induction l as [|x l IH]; [done|]. by rewrite bind_cons, IH. Qed.

Lemma bind_app_Permutation {A B} (f g : A → list B) (l : list A) :
  l ≫= (λ x, f x ++ g x) ≡ₚ (l ≫= f) ++ (l ≫= g).
Proof.
  induction l as [|x l IH]; [done|].
  rewrite !bind_cons, IH, <-!(assoc_L (++)). apply Permutation_app_head.
  apply Permutation_app_swap_app.
Qed.

Lemma bind_filter_singleton {A B} (P : A → Prop) `{!∀ x, Decision (P x)}
    (f : A → B) (l : list A) :
  l ≫= (λ x, f <$> filter P [x]) = f <$> filter P l.
Proof.
  induction l as [|x l IH]; [done|].
  rewrite bind_cons, IH, (filter_cons P x l), filter_cons, filter_nil.
  by case_decide.
Qed.

Lemma length_bind_sum {A B} (f : A → list B) (l : list A) :
  length (l ≫= f) = sum_list (length ∘ f <$> l).
Proof.
  induction l as [|x l IH]; [done|].
  rewrite bind_cons, length_app, fmap_cons, IH. done.
Qed.

Lemma length_filter_sum {A} (P : A → Prop) `{!∀ x, Decision (P x)}
    (l : list A) :
  length (filter P l) = sum_list ((λ x, if decide (P x) then 1 else 0) <$> l).
Proof.
  induction l as [|x l IH]; [done|].
  rewrite filter_cons, fmap_cons. simpl. rewrite <-IH. by case_decide.
Qed.

Lemma filter_nil_not_elem_of {A} (P : A → Prop) `{!∀ x, Decision (P x)}
    (l : list A) :
  filter P l = [] ↔ ∀ x, x ∈ l → ¬ P x.
Proof.
  split.
  - intros Hnil x Hx HP.
    assert (x ∈ filter P l) as Hin by (by apply list_elem_of_filter).
    rewrite Hnil in Hin. by apply elem_of_nil in Hin.
  - intros Hno. destruct (filter P l) as [|x l'] eqn:Hf; [done|].
    assert (x ∈ filter P l) as [HP Hin]%list_elem_of_filter
      by (rewrite Hf; left).
    by destruct (Hno x Hin).
Qed.

Section join_facts.
Context {A : Type}.
Variable kinds_error : list BcRow → list A → option string.

(** The joined rows for a [read_id] column of text, listed by alignment. *)
Lemma pd_merge_text_Permutation (bcs : list BcRow)
    (rows : list (option string * A)) :
  (b ← bcs;
   (λ r, (b, r.2)) <$> filter (λ r, r.1 = Some (bcs_read_id b)) rows) ≡ₚ
  (r ← rows;
   (λ b, (b, r.2)) <$> filter (λ b, r.1 = Some (bcs_read_id b)) bcs).
Proof.
  induction bcs as [|b bcs IH].
  - simpl. by rewrite bind_nil_const.
  - rewrite bind_cons, IH.
    rewrite <-(bind_filter_singleton
      (λ r, r.1 = Some (bcs_read_id b)) (λ r, (b, r.2)) rows).
    rewrite <-bind_app_Permutation.
    apply reflexive_eq. apply list_bind_ext; [|done].
    intros r. rewrite (filter_cons _ b bcs), filter_cons, filter_nil.
    by case_decide.
Qed.

Lemma pd_merge_text_elem_of (bcs : list BcRow)
    (rows : list (option string * A)) (b : BcRow) (a : A) :
  (b, a) ∈
    (b ← bcs;
     (λ r, (b, r.2)) <$> filter (λ r, r.1 = Some (bcs_read_id b)) rows) ↔
  b ∈ bcs ∧ (Some (bcs_read_id b), a) ∈ rows.
Proof.
  rewrite list_elem_of_bind. split.
  - intros (b' & Hr & Hb). apply list_elem_of_fmap in Hr as ([i a'] & Heq & Hr).
    apply list_elem_of_filter in Hr as [Hid Hr]. simpl in *.
    by simplify_eq.
  - intros [Hb Hr]. exists b. split; [|done].
    apply (list_elem_of_fmap_2' _ _ (Some (bcs_read_id b), a)); [|done].
    by apply list_elem_of_filter.
Qed.

Lemma text_rows_length (alns : alignments A)
    (rows : list (option string * A)) :
  text_rows alns = Some rows → alignment_rows alns = length rows.
Proof.
  destruct alns as [rows'|[|a rows']]; simpl; [|by intros [= <-]|done].
  case_decide; [|done]. by intros [= <-].
Qed.

Lemma pd_merge_text_nil (bcs : list BcRow) (alns : alignments A)
    (rows : list (option string * A)) :
  text_rows alns = Some rows →
  pd_merge kinds_error bcs alns = inr [] ↔
  ∀ b r, b ∈ bcs → r ∈ rows → r.1 ≠ Some (bcs_read_id b).
Proof.
  intros Htext. unfold pd_merge. rewrite Htext. split.
  - intros [= Hnil] b [i a] Hb Hr Hid. simpl in Hid. subst i.
    assert ((b, a) ∈ @nil (BcRow * A)) as Hin
      by (rewrite <-Hnil; by apply pd_merge_text_elem_of).
    by apply elem_of_nil in Hin.
  - intros Hno. f_equal.
    destruct (_ ≫= _) as [|[b a] l] eqn:Hm in |- *; [done|].
    assert ((b, a) ∈
      (b ← bcs;
       (λ r, (b, r.2)) <$> filter (λ r, r.1 = Some (bcs_read_id b)) rows))
      as [Hb Hr]%pd_merge_text_elem_of by (rewrite Hm; left).
    by destruct (Hno b _ Hb Hr).
Qed.

(** C3, as the script has it.  The join stage raises the exception of line
    107 exactly when [pd.merge] returns an empty table, whether or not
    there are alignments.  For a [read_id] column held as text that is
    when no alignment shares its identifier with a library record.  For a
    [read_id] column that is not held as text the stage always fails:
    with the error of [pd.merge] when it raises one, else with the
    exception of line 107, the joined table being empty.  An error of
    [pd.merge] ends the stage, and a joined table that is not empty is
    returned under fresh row labels, with no error. *)
Theorem join_stage_raises (bcs : list BcRow) (alns : alignments A) :
  (join_stage kinds_error bcs alns = inl (Script no_common_entries) ↔
     pd_merge kinds_error bcs alns = inr []) ∧
  (∀ rows, text_rows alns = Some rows →
     (join_stage kinds_error bcs alns = inl (Script no_common_entries) ↔
        ∀ b r, b ∈ bcs → r ∈ rows → r.1 ≠ Some (bcs_read_id b))) ∧
  (text_rows alns = None →
     join_stage kinds_error bcs alns =
       inl (match kinds_error bcs (other_rows alns) with
            | Some msg => MergeError msg
            | None => Script no_common_entries
            end)) ∧
  (∀ e, pd_merge kinds_error bcs alns = inl e →
        join_stage kinds_error bcs alns = inl e) ∧
  (∀ bcalib, pd_merge kinds_error bcs alns = inr bcalib → bcalib ≠ [] →
             join_stage kinds_error bcs alns = inr (range_index bcalib)).
Proof.
  assert (join_stage kinds_error bcs alns = inl (Script no_common_entries) ↔
          pd_merge kinds_error bcs alns = inr []) as Hiff.
  { unfold join_stage, pd_merge. destruct (text_rows alns) as [rows|].
    - destruct (_ ≫= _) as [|r l]; split; done.
    - destruct (kinds_error bcs (other_rows alns)); split; done. }
  split_and!.
  - done.
  - intros rows Htext. by rewrite Hiff, pd_merge_text_nil.
  - intros Htext. unfold join_stage, pd_merge. rewrite Htext.
    by destruct (kinds_error bcs (other_rows alns)).
  - intros e He. unfold join_stage. by rewrite He.
  - intros bcalib Hm Hne. unfold join_stage. rewrite Hm.
    by destruct bcalib.
Qed.

Lemma pd_merge_text_pairs (bcs : list BcRow) (alns : alignments A)
    (rows : list (option string * A)) :
  text_rows alns = Some rows →
  ∃ bcalib,
    pd_merge kinds_error bcs alns = inr bcalib ∧
    bcalib ≡ₚ
      (r ← rows;
       (λ b, (b, r.2)) <$> filter (λ b, r.1 = Some (bcs_read_id b)) bcs) ∧
    length bcalib =
      sum_list ((λ r, length (filter (λ b, r.1 = Some (bcs_read_id b)) bcs))
                  <$> rows).
Proof.
  intros Htext. unfold pd_merge. rewrite Htext.
  eexists. split; [reflexivity|].
  pose proof (pd_merge_text_Permutation bcs rows) as Hp.
  split; [done|].
  rewrite Hp, length_bind_sum. f_equal.
  apply list_fmap_ext. intros _ r _. simpl. by rewrite length_fmap.
Qed.

(** X3. For a [read_id] column held as text the joined table has one row
    for each pair of an alignment and a library record with the same read
    identifier, and no other row: it is a rearrangement of the list that
    gives, for each alignment in turn, one row per library record bearing
    its identifier; so its length is the sum, over the alignments, of the
    number of library records that bear the identifier of the
    alignment. *)
Theorem pd_merge_pairs (bcs : list BcRow) (alns : alignments A)
    (rows : list (option string * A)) :
  text_rows alns = Some rows →
  ∃ bcalib,
    pd_merge kinds_error bcs alns = inr bcalib ∧
    bcalib ≡ₚ
      (r ← rows;
       (λ b, (b, r.2)) <$> filter (λ b, r.1 = Some (bcs_read_id b)) bcs) ∧
    length bcalib =
      sum_list ((λ r, length (filter (λ b, r.1 = Some (bcs_read_id b)) bcs))
                  <$> rows).
Proof. apply pd_merge_text_pairs. Qed.

End join_facts.

(** X3, witness.  Two library records bear the identifier of the first
    alignment and none that of the second: two joined rows. *)
Lemma pd_merge_pairs_witness :
  ∃ bcalib,
    pd_merge (λ _ _, None)
      [mkBcRow "read1" "AAAA"; mkBcRow "read1" "CCCC"]
      (text_ids [(Some "read1", 1); (Some "read9", 2)]) = inr bcalib ∧
    length bcalib = 2.
Proof.
  destruct (pd_merge_pairs (λ _ _, None)
    [mkBcRow "read1" "AAAA"; mkBcRow "read1" "CCCC"]
    (text_ids [(Some "read1", 1); (Some "read9", 2)])
    [(Some "read1", 1); (Some "read9", 2)] eq_refl)
    as (bcalib & Hm & _ & Hlen).
  exists bcalib. split; [done|]. rewrite Hlen. reflexivity.
Defined.

(** On tables typed as in the data model, [pd_merge] is [merge]. *)
Lemma merge_as_frame (kinds_error : list BcRow → list AlnRow → option string)
    (bcs : list BcRow) (alns : list AlnRow) :
  ∃ bcalib,
    pd_merge kinds_error bcs
      (text_ids ((λ a, (Some (alns_read_id a), a)) <$> alns)) = inr bcalib ∧
    merge bcs alns = (λ ba, join_row ba.1 ba.2) <$> bcalib.
Proof.
  unfold pd_merge.
  assert (text_rows (text_ids ((λ a, (Some (alns_read_id a), a)) <$> alns)) =
          Some ((λ a, (Some (alns_read_id a), a)) <$> alns)) as ->.
  { simpl. rewrite decide_True; [done|].
    destruct alns as [|a alns]; [by left|right].
    rewrite fmap_cons. apply Exists_cons_hd. by eexists. }
  eexists. split; [reflexivity|]. unfold merge.
  induction bcs as [|b bcs IH]; [done|].
  rewrite !bind_cons, fmap_app, IH. f_equal.
  clear IH. induction alns as [|a alns IH]; [done|].
  rewrite fmap_cons, !filter_cons. simpl.
  destruct (decide (alns_read_id a = bcs_read_id b)) as [Heq|Hne].
  - rewrite decide_True by (by rewrite Heq). rewrite !fmap_cons. simpl.
    by rewrite IH.
  - rewrite decide_False by congruence. done.
Qed.

(** C3, counterexample.  With no alignment at all the joined table is
    empty and the script raises, where the specification has the error
    only for an alignment input that is not empty. *)
Lemma join_stage_raises_without_alignments :
  join_stage (λ _ _, None) (bcs [SeqRecord.mk "read1" "AAGG"])
    (text_ids ([] : list (option string * AlnCells string Z Z string string)))
    = inl (Script no_common_entries) ∧
  ¬ (pd_merge (λ _ _, None) (bcs [SeqRecord.mk "read1" "AAGG"])
       (text_ids
          ([] : list (option string * AlnCells string Z Z string string)))
       = inr [] ∧
     alignment_rows
       (text_ids
          ([] : list (option string * AlnCells string Z Z string string)))
       ≠ 0).
Proof. split; [reflexivity|]. by intros [_ ?]. Qed.

(** ** From the loaded tables to the series of the counts *)

Lemma range_index_length {A} (rows : list A) :
  length (range_index rows) = length rows.
Proof. unfold range_index. apply length_imap. Qed.

Lemma bcs_read_ids (library : list SeqRecord.t) :
  (λ b, Some (bcs_read_id b)) <$> bcs library =
  (λ record, Some (SeqRecord.id record)) <$> library.
Proof.
  unfold bcs, from_records, fasta_tuple_generator.
  rewrite <-!list_fmap_compose. done.
Qed.

Lemma filter_unique_read_id (records : list BcRow) (i : option string) :
  NoDup ((λ b, Some (bcs_read_id b)) <$> records) →
  length (filter (λ b, i = Some (bcs_read_id b)) records) =
  if decide (i ∈ (λ b, Some (bcs_read_id b)) <$> records) then 1 else 0.
Proof.
  induction records as [|b records IH]; intros Hnd.
  - rewrite decide_False; [done|]. apply not_elem_of_nil.
  - rewrite fmap_cons in Hnd. apply NoDup_cons in Hnd as [Hb Hnd].
    rewrite filter_cons, fmap_cons.
    destruct (decide (i = Some (bcs_read_id b))) as [->|Hne].
    + cbn [length]. rewrite IH by done. rewrite decide_False by done.
      rewrite decide_True; [done|by left].
    + rewrite IH by done.
      destruct (decide (i ∈ (λ b, Some (bcs_read_id b)) <$> records))
        as [Hin|Hin].
      * rewrite decide_True; [done|by right].
      * rewrite decide_False; [done|].
        intros [->|?]%elem_of_cons; done.
Qed.

Section run_facts.
Context {Chrom Start Stop Score Strand : Type}.
Context `{!Lexico Chrom, !TrichotomyT (@lexico Chrom _), !EqDecision Chrom,
          !StrictOrder (@lexico Chrom _)}.
Context `{!Lexico Start, !TrichotomyT (@lexico Start _), !EqDecision Start,
          !StrictOrder (@lexico Start _)}.
Context `{!Lexico Stop, !TrichotomyT (@lexico Stop _), !EqDecision Stop,
          !StrictOrder (@lexico Stop _)}.
Context `{!Lexico Strand, !TrichotomyT (@lexico Strand _),
          !EqDecision Strand, !StrictOrder (@lexico Strand _)}.

Implicit Types (alns : alignments (AlnCells Chrom Start Stop Score Strand)).
Implicit Types
  (rows : list (option string * AlnCells Chrom Start Stop Score Strand)).
Implicit Types
  (joined : list (BcRow * AlnCells Chrom Start Stop Score Strand)).

Variable kinds_error :
  list BcRow → list (AlnCells Chrom Start Stop Score Strand) → option string.

Lemma drop_uncalled_rows joined :
  (drop_uncalled (range_index joined)).*2 =
  filter (λ r, ¬ has_uncalled (bcs_bc r.1)) joined.
Proof.
  unfold drop_uncalled. rewrite drop_labels_boolean_index
    by (rewrite range_index_labels; apply NoDup_seq).
  etrans; [exact (filter_fmap_snd
                    (λ r : BcRow * AlnCells Chrom Start Stop Score Strand,
                       str_contains "N" (bcs_bc r.1) ≠ true)
                    (range_index joined))|].
  rewrite range_index_rows. apply filter_ext_in.
  intros r _. by rewrite str_contains_uncalled.
Qed.

(** The script after a join that is not empty. *)
Lemma run_joined (library : list SeqRecord.t) alns joined :
  pd_merge kinds_error (bcs library) alns = inr joined → joined ≠ [] →
  run kinds_error library alns =
  inr (if decide (length joined < alignment_rows alns)
       then Some (unmatched_text (alignment_rows alns) (length joined))
       else None,
       if decide (length (filter (λ r, ¬ has_uncalled (bcs_bc r.1)) joined)
                  < length joined)
       then Some (dropped_text (length joined)
                    (length (filter (λ r, ¬ has_uncalled (bcs_bc r.1))
                               joined)))
       else None,
       groupby_dropna (filter (λ r, ¬ has_uncalled (bcs_bc r.1)) joined)).
Proof.
  intros Hm Hne. unfold run, join_stage. rewrite Hm.
  destruct joined as [|r joined]; [done|].
  cbv zeta. rewrite drop_uncalled_rows.
  rewrite <-(length_fmap snd (drop_uncalled _)), drop_uncalled_rows.
  by rewrite range_index_length.
Qed.

(** X4. When no read identifier occurs twice in the library and the
    [read_id] column of the alignments is held as text: if no alignment
    has a library record, the script raises and gives no warning;
    otherwise the joined table has one row for each alignment that has a
    library record, and the warning is given exactly when some alignment
    has none, with the number of those alignments. *)
Theorem run_unmatched_warning (library : list SeqRecord.t) alns rows :
  NoDup (SeqRecord.id <$> library) →
  text_rows alns = Some rows →
  (Forall (λ r, r.1 ∉ (λ record, Some (SeqRecord.id record)) <$> library)
     rows →
   run kinds_error library alns = inl (Script no_common_entries))
  ∧
  (Exists (λ r, r.1 ∈ (λ record, Some (SeqRecord.id record)) <$> library)
     rows →
   ∃ message out,
     run kinds_error library alns =
     inr (if decide
               (Forall (λ r, r.1 ∈ (λ record, Some (SeqRecord.id record))
                                     <$> library) rows)
          then None
          else Some (unmatched_text (length rows)
                       (length (filter
                          (λ r, r.1 ∈ (λ record, Some (SeqRecord.id record))
                                        <$> library) rows))),
          message, out)).
Proof.
  intros Hnd Htext.
  destruct (pd_merge_text_pairs kinds_error (bcs library) alns rows Htext)
    as (joined & Hm & _ & Hlen).
  assert (NoDup ((λ b, Some (bcs_read_id b)) <$> bcs library)) as Hnd'.
  { rewrite bcs_read_ids. rewrite (list_fmap_compose SeqRecord.id Some).
    by apply (NoDup_fmap_2 _). }
  assert (length joined =
          length (filter (λ r, r.1 ∈ (λ record, Some (SeqRecord.id record))
                                       <$> library) rows)) as Hlen'.
  { rewrite Hlen, length_filter_sum. f_equal.
    apply list_fmap_ext. intros _ r _.
    rewrite filter_unique_read_id by done. by rewrite bcs_read_ids. }
  split.
  - intros Hall.
    assert (joined = []) as ->.
    { apply length_zero_iff_nil. rewrite Hlen'.
      apply length_zero_iff_nil, filter_nil_not_elem_of.
      intros r Hr. by apply (proj1 (Forall_forall _ _) Hall). }
    unfold run, join_stage. by rewrite Hm.
  - intros Hex.
    assert (joined ≠ []) as Hne.
    { intros ->. simpl in Hlen'. symmetry in Hlen'.
      apply length_zero_iff_nil in Hlen'.
      pose proof (proj1 (filter_nil_not_elem_of _ _) Hlen') as Hno.
      apply Exists_exists in Hex as (r & Hr & Hin). by apply (Hno r). }
    rewrite (run_joined _ _ _ Hm Hne). do 2 eexists. do 2 f_equal.
    rewrite (text_rows_length _ _ Htext), Hlen'.
    destruct (decide (Forall _ rows)) as [Hall|Hnall].
    + rewrite decide_False; [done|].
      rewrite filter_Forall_id by done. lia.
    + rewrite decide_True; [done|].
      apply not_Forall_Exists in Hnall; [|apply _].
      apply Exists_exists in Hnall as (r & Hr & Hno).
      by apply (length_filter_lt _ rows r).
Qed.

(** X5. After a join that is not empty the filter only removes rows: the
    rows that are left and the rows with an uncalled base add up to the
    joined rows; the counts of the output add up to the rows that are left
    and have all their key cells; the message about dropped rows is given
    exactly when some joined barcode has an [N]; and no barcode of the
    output has one. *)
Theorem run_dropped_message (library : list SeqRecord.t) alns joined :
  pd_merge kinds_error (bcs library) alns = inr joined → joined ≠ [] →
  ∃ warning message out,
    run kinds_error library alns = inr (warning, message, out) ∧
    length (filter (λ r, ¬ has_uncalled (bcs_bc r.1)) joined) +
      length (filter (λ r, has_uncalled (bcs_bc r.1)) joined) =
      length joined ∧
    sum_list out.*2 =
      length (filter (λ r, is_Some (present_key r))
                (filter (λ r, ¬ has_uncalled (bcs_bc r.1)) joined)) ∧
    (message = None ↔ ∀ r, r ∈ joined → ¬ has_uncalled (bcs_bc r.1)) ∧
    (∀ k n, (k, n) ∈ out → ¬ has_uncalled k.2).
Proof.
  intros Hm Hne. rewrite (run_joined _ _ _ Hm Hne).
  do 3 eexists. split; [reflexivity|].
  assert (length (filter (λ r, ¬ has_uncalled (bcs_bc r.1)) joined) +
          length (filter (λ r, has_uncalled (bcs_bc r.1)) joined) =
          length joined) as Hsplit.
  { rewrite Nat.add_comm, <-length_app.
    apply Permutation_length, filter_app_complement. }
  split_and!.
  - done.
  - unfold groupby_dropna. by rewrite groupby_size_sum, length_omap_is_Some.
  - split.
    + case_decide as Hlt; [done|]. intros _ r Hr Hn.
      pose proof (length_filter_lt
        (λ r, ¬ has_uncalled (bcs_bc r.1)) joined r Hr) as Hlt'.
      apply Hlt, Hlt'. by intros Hnn.
    + intros Hall. rewrite decide_False; [done|].
      assert (filter (λ r, has_uncalled (bcs_bc r.1)) joined = []) as Hnil
        by (apply filter_nil_not_elem_of; done).
      rewrite Hnil in Hsplit. simpl in Hsplit. lia.
  - intros k n [Hin _]%groupby_size_elem_of.
    apply list_elem_of_omap in Hin as (r & Hr & Hk).
    apply list_elem_of_filter in Hr as [Hr _].
    unfold present_key in Hk.
    destruct (chrom_cell r.2), (start_cell r.2), (stop_cell r.2),
      (strand_cell r.2); simplify_eq/=. done.
Qed.

End run_facts.

(** X4, witness.  A library and alignments without a common read
    identifier: the script raises, and no warning is given. *)
Lemma run_unmatched_warning_witness :
  NoDup (SeqRecord.id <$> [SeqRecord.mk "read1" "AAGG"]) ∧
  run (λ _ _, None) [SeqRecord.mk "read1" "AAGG"]
    (text_ids
       [(Some "read7",
         mkAlnCells (Some "chr1") (Some 100%Z) (Some 110%Z) (Some 0%Z)
           (Some "+"))]) = inl (Script no_common_entries).
Proof.
  assert (NoDup (SeqRecord.id <$> [SeqRecord.mk "read1" "AAGG"])) as Hnd
    by (apply (bool_decide_unpack _); by vm_compute).
  split; [done|].
  apply (run_unmatched_warning (λ _ _, None) _
    (text_ids
       [(Some "read7",
         mkAlnCells (Some "chr1") (Some 100%Z) (Some 110%Z) (Some 0%Z)
           (Some "+"))])
    [(Some "read7",
      mkAlnCells (Some "chr1") (Some 100%Z) (Some 110%Z) (Some 0%Z)
        (Some "+"))] Hnd eq_refl).
  apply (bool_decide_unpack _). by vm_compute.
Defined.

(** X5, witness.  Two joined rows, one with an uncalled base: the message
    is given and the output counts the other row. *)
Lemma run_dropped_message_witness :
  ∃ warning out,
    run (λ _ _, None)
      [SeqRecord.mk "read1" "AAGG"; SeqRecord.mk "read2" "AANG"]
      (text_ids
         [(Some "read1",
           mkAlnCells (Some "chr1") (Some 100%Z) (Some 110%Z) (Some 0%Z)
             (Some "+"));
          (Some "read2",
           mkAlnCells (Some "chr1") (Some 100%Z) (Some 110%Z) (Some 0%Z)
             (Some "+"))]) =
    inr (warning, Some (dropped_text 2 1), out) ∧
    sum_list out.*2 = 1.
Proof.
  destruct (run_dropped_message (λ _ _, None)
    [SeqRecord.mk "read1" "AAGG"; SeqRecord.mk "read2" "AANG"]
    (text_ids
       [(Some "read1",
         mkAlnCells (Some "chr1") (Some 100%Z) (Some 110%Z) (Some 0%Z)
           (Some "+"));
        (Some "read2",
         mkAlnCells (Some "chr1") (Some 100%Z) (Some 110%Z) (Some 0%Z)
           (Some "+"))])
    _ eq_refl) as (warning & message & out & Hrun & _ & Hsum & _ & _);
    [done|].
  exists warning, out. split; [|by rewrite Hsum].
  rewrite Hrun. vm_compute in Hrun. by simplify_eq.
Defined.

(** C6, at the input where the script leaves the mapping that its line 87
    announces.  The library holds the read identifier read1 twice, with
    the barcodes AAAA and CCCC, and one alignment bears it.  A mapping
    keeps the last barcode for read1; the script keeps both records in a
    table, joins the alignment with each of them, and the output has two
    records for the one alignment. *)
Theorem duplicate_read_id_joined_twice :
  pd_merge (λ _ _, None)
    (bcs [SeqRecord.mk "read1" "AAAA"; SeqRecord.mk "read1" "CCCC"])
    (text_ids
       [(Some "read1",
         mkAlnCells (Some "chr1") (Some 100%Z) (Some 110%Z) (Some 0%Z)
           (Some "+"))]) =
  inr [(mkBcRow "read1" "AAAA",
        mkAlnCells (Some "chr1") (Some 100%Z) (Some 110%Z) (Some 0%Z)
          (Some "+"));
       (mkBcRow "read1" "CCCC",
        mkAlnCells (Some "chr1") (Some 100%Z) (Some 110%Z) (Some 0%Z)
          (Some "+"))] ∧
  library_dict
    (bcs [SeqRecord.mk "read1" "AAAA"; SeqRecord.mk "read1" "CCCC"])
    !! "read1" = Some "CCCC" ∧
  run (λ _ _, None)
    [SeqRecord.mk "read1" "AAAA"; SeqRecord.mk "read1" "CCCC"]
    (text_ids
       [(Some "read1",
         mkAlnCells (Some "chr1") (Some 100%Z) (Some 110%Z) (Some 0%Z)
           (Some "+"))]) =
  inr (None, None,
       [(("chr1", 100%Z, 110%Z, "+", "AAAA"), 1);
        (("chr1", 100%Z, 110%Z, "+", "CCCC"), 1)]).
Proof. split_and!; [reflexivity|by vm_compute|reflexivity]. Qed.

(** ** The loader of the alignments *)

Lemma blank_split_fields (line : string) :
  blank line = true → split_fields tab line = [line].
Proof.
  unfold blank. induction line as [|c line IH]; [done|].
  cbn [all_char split_fields]. intros [Hc Hline]%andb_prop.
  apply bool_decide_eq_true in Hc as ->.
  rewrite decide_False by done. by rewrite IH.
Qed.

Lemma tokenize_rows_short (file_lines : nat) (lines : list string) :
  Forall (λ line, length (split_fields tab line) ≤ 6) lines →
  tokenize_rows file_lines lines =
  inr (read_row ∘ split_fields tab <$>
         filter (λ line, blank line = false) lines).
Proof.
  intros Hall. revert file_lines.
  induction Hall as [|line lines Hlen Hall IH]; intros file_lines; [done|].
  cbn [tokenize_rows]. rewrite filter_cons.
  destruct (blank line) eqn:Hblank.
  - rewrite decide_False by done. apply IH.
  - change (length names) with 6.
    rewrite decide_False by lia.
    rewrite decide_True by done. by rewrite IH.
Qed.

Lemma tokenize_rows_long (file_lines : nat) (pre : list string)
    (line : string) (rest : list string) :
  Forall (λ line, length (split_fields tab line) ≤ 6) pre →
  6 < length (split_fields tab line) →
  tokenize_rows file_lines (pre ++ line :: rest) =
  inl (ParserError 6 (S (file_lines + length pre))
         (length (split_fields tab line))).
Proof.
  intros Hall Hlong. revert file_lines.
  induction Hall as [|l pre Hlen Hall IH]; intros file_lines.
  - cbn [app tokenize_rows]. destruct (blank line) eqn:Hblank.
    + rewrite blank_split_fields in Hlong by done. simpl in Hlong. lia.
    + change (length names) with 6. rewrite decide_True by done.
      do 2 f_equal. simpl. lia.
  - rewrite <-app_comm_cons. cbn [tokenize_rows].
    destruct (blank l).
    + rewrite IH. do 2 f_equal. simpl. lia.
    + change (length names) with 6. rewrite decide_False by lia.
      rewrite IH. do 2 f_equal. simpl. lia.
Qed.

(** C5, as the script has it.  The loader checks no field against a type
    and rejects no short line.  In a file that the embedding reads, whose
    first line of data has six fields: when no line has more than six
    fields, whatever the fields hold, every line that is not blank is
    loaded, a short one completed with missing values; a line with more
    than six fields that comes after such lines fails with a
    [ParserError] that carries its line number. *)
Theorem read_csv_field_count (lines : list string) (first : string) :
  forallb embedded_line lines = true →
  head (filter (λ line, blank line = false) lines) = Some first →
  length (split_fields tab first) = 6 →
  Forall (λ line, length (split_fields tab line) ≤ 6) lines →
  read_csv lines =
    Frame (read_row ∘ split_fields tab <$>
             filter (λ line, blank line = false) lines) ∧
  ∀ line rest,
    forallb embedded_line (line :: rest) = true →
    6 < length (split_fields tab line) →
    read_csv (lines ++ line :: rest) =
    Raises (ParserError 6 (S (length lines))
              (length (split_fields tab line))).
Proof.
  intros Hemb Hfirst Hsix Hall. split.
  - unfold read_csv. rewrite Hemb.
    destruct (filter _ lines) as [|first' data] eqn:Hf; [done|].
    simpl in Hfirst. simplify_eq.
    rewrite decide_True by done.
    rewrite tokenize_rows_short by done. by rewrite Hf.
  - intros line rest Hemb' Hlong. unfold read_csv.
    rewrite forallb_app, Hemb, Hemb'. cbn [andb].
    rewrite filter_app.
    destruct (filter _ lines) as [|first' data] eqn:Hf; [done|].
    simpl in Hfirst. simplify_eq.
    rewrite <-app_comm_cons, decide_True by done.
    by rewrite (tokenize_rows_long 0) by done.
Qed.

Lemma read_csv_field_count_witness :
  read_csv
    [String.concat (String tab "")
       ["chr1"; "100"; "110"; "read1"; "0"; "+"];
     "";
     String.concat (String tab "") ["chr1"; "100"; "110"; "read2"; ""]]
  = Frame
      [[Some "chr1"; Some "100"; Some "110"; Some "read1"; Some "0";
        Some "+"];
       [Some "chr1"; Some "100"; Some "110"; Some "read2"; None; None]]
  ∧
  read_csv
    ([String.concat (String tab "")
        ["chr1"; "100"; "110"; "read1"; "0"; "+"];
      "";
      String.concat (String tab "") ["chr1"; "100"; "110"; "read2"; ""]] ++
     [String.concat (String tab "") ["a"; "b"; "c"; "d"; "e"; "f"; "g"]])
  = Raises (ParserError 6 4 7).
Proof.
  pose proof (read_csv_field_count
    [String.concat (String tab "")
       ["chr1"; "100"; "110"; "read1"; "0"; "+"];
     "";
     String.concat (String tab "") ["chr1"; "100"; "110"; "read2"; ""]]
    (String.concat (String tab "")
       ["chr1"; "100"; "110"; "read1"; "0"; "+"])) as [H1 H2].
  { reflexivity. }
  { reflexivity. }
  { reflexivity. }
  { repeat constructor; vm_compute; lia. }
  split.
  - rewrite H1. reflexivity.
  - apply (H2 (String.concat (String tab "")
                 ["a"; "b"; "c"; "d"; "e"; "f"; "g"]) []).
    + reflexivity.
    + vm_compute. lia.
Defined.

(** C5, counterexample.  After a line of six fields, a line of five fields
    is loaded, its strand missing, and so is a line whose start is not an
    integer; neither raises an error. *)
Lemma read_csv_short_line_loads :
  read_csv
    [String.concat (String tab "")
       ["chr1"; "100"; "110"; "read1"; "0"; "+"];
     String.concat (String tab "") ["chr1"; "100"; "110"; "read2"; "0"];
     String.concat (String tab "")
       ["chr1"; "abc"; "110"; "read3"; "0"; "+"]]
  = Frame
      [[Some "chr1"; Some "100"; Some "110"; Some "read1"; Some "0";
        Some "+"];
       [Some "chr1"; Some "100"; Some "110"; Some "read2"; Some "0"; None];
       [Some "chr1"; Some "abc"; Some "110"; Some "read3"; Some "0";
        Some "+"]].
Proof. reflexivity. Qed.

(** ** The script on the lines of a file *)

Global Instance cell_lexico_po : StrictOrder (@lexico cell _).
Proof.
  split.
  - intros [s|z]; unfold complement, lexico, cell_lexico.
    + apply (irreflexivity (@lexico string _)).
    + apply Z.lt_irrefl.
  - intros [s1|z1] [s2|z2] [s3|z3]; unfold lexico, cell_lexico; try done.
    + apply (transitivity (R:=@lexico string _)).
    + apply Z.lt_trans.
Qed.

(** Three alignments of one interval and strand whose reads share the
    barcode AAGG give one line with the count 3. *)
Example script_scenario_A :
  script (λ _ _, None)
    [SeqRecord.mk "read1" "AAGG"; SeqRecord.mk "read2" "AAGG";
     SeqRecord.mk "read3" "AAGG"]
    [String.concat (String tab "")
       ["chr1"; "100"; "110"; "read1"; "0"; "+"];
     String.concat (String tab "")
       ["chr1"; "100"; "110"; "read2"; "0"; "+"];
     String.concat (String tab "")
       ["chr1"; "100"; "110"; "read3"; "0"; "+"]] =
  Returns
    (String.concat (String tab "") ["chr1"; "100"; "110"; "AAGG"; "3"; "+"]
     +:+ String newline "").
Proof. reflexivity. Qed.

(** Chromosomes that are all numbers are held as integers: the
    chromosome 2 is written before the chromosome 10. *)
Example script_numeric_chrom :
  script (λ _ _, None)
    [SeqRecord.mk "read1" "AAGG"; SeqRecord.mk "read2" "AAGG"]
    [String.concat (String tab "") ["10"; "100"; "110"; "read1"; "0"; "+"];
     String.concat (String tab "") ["2"; "100"; "110"; "read2"; "0"; "+"]] =
  Returns
    (String.concat (String tab "") ["2"; "100"; "110"; "AAGG"; "1"; "+"]
     +:+ String newline "" +:+
     String.concat (String tab "") ["10"; "100"; "110"; "AAGG"; "1"; "+"]
     +:+ String newline "").
Proof. reflexivity. Qed.

(** In such a column the fields 01 and 1 are the same chromosome: the two
    alignments are counted together. *)
Example script_leading_zero :
  script (λ _ _, None)
    [SeqRecord.mk "read1" "AAGG"; SeqRecord.mk "read2" "AAGG"]
    [String.concat (String tab "") ["01"; "100"; "110"; "read1"; "0"; "+"];
     String.concat (String tab "") ["1"; "100"; "110"; "read2"; "0"; "+"]] =
  Returns
    (String.concat (String tab "") ["1"; "100"; "110"; "AAGG"; "2"; "+"]
     +:+ String newline "").
Proof. reflexivity. Qed.

(** An alignment whose line has five fields is loaded without its strand
    and is in no count. *)
Example script_short_line :
  script (λ _ _, None)
    [SeqRecord.mk "read1" "AAGG"; SeqRecord.mk "read2" "AAGG"]
    [String.concat (String tab "")
       ["chr1"; "100"; "110"; "read1"; "0"; "+"];
     String.concat (String tab "") ["chr1"; "100"; "110"; "read2"; "0"]] =
  Returns
    (String.concat (String tab "") ["chr1"; "100"; "110"; "AAGG"; "1"; "+"]
     +:+ String newline "").
Proof. reflexivity. Qed.

(** Read identifiers that are all numbers are held as integers, and none
    is equal to an identifier of the library, which is text: the script
    fails, with the error of [pd.merge] where pandas raises one, else with
    the exception of line 107. *)
Example script_numeric_read_id :
  script (λ _ _, Some "You are trying to merge on object and int64 columns")
    [SeqRecord.mk "1" "AAGG"]
    [String.concat (String tab "") ["chr1"; "100"; "110"; "1"; "0"; "+"]] =
  Fails (MergeError "You are trying to merge on object and int64 columns") ∧
  script (λ _ _, None)
    [SeqRecord.mk "1" "AAGG"]
    [String.concat (String tab "") ["chr1"; "100"; "110"; "1"; "0"; "+"]] =
  Fails (Script no_common_entries).
Proof. split; reflexivity. Qed.

(** A line of seven fields after a line of six ends the script with the
    error of the loader. *)
Example script_long_line :
  script (λ _ _, None)
    [SeqRecord.mk "read1" "AAGG"]
    [String.concat (String tab "")
       ["chr1"; "100"; "110"; "read1"; "0"; "+"];
     String.concat (String tab "")
       ["chr1"; "100"; "110"; "read2"; "0"; "+"; "extra"]] =
  Fails (Script (ParserError 6 2 7)).
Proof. reflexivity. Qed.





(** * Properties of extract_bcs.py *)

Section extract_bcs.
Import ExtractBcs.
Implicit Types (pattern s seq qual : str) (pos : nat) (start : option nat).

(** ** The pattern *)

Lemma valid_pattern_go_iff (seen : bool) pattern :
  valid_pattern_go seen pattern = true ↔
  ∃ body, Forall (λ c, c = X ∨ c = N) body ∧
          (seen = true ∨ body ≠ []) ∧
          (pattern = body ∨ pattern = body ++ [newline]).
Proof.
  revert seen. induction pattern as [|c rest IH]; intros seen.
  - cbn [valid_pattern_go]. split.
    + intros ->. exists []. split_and!; [constructor|by left|by left].
    + intros (body & _ & [?|Hne] & [Hp|Hp]); [done| |..].
      * by destruct body.
      * by destruct Hne.
      * by destruct body.
  - cbn [valid_pattern_go]. destruct (decide (c = X ∨ c = N)) as [Hc|Hc].
    + rewrite IH. split.
      * intros (body & Hall & _ & Hp). exists (c :: body).
        split_and!; [by constructor|by right|].
        destruct Hp as [->| ->]; [by left|by right].
      * intros (body & Hall & _ & Hp). destruct body as [|c' body].
        { destruct Hp as [?|[= -> _]]; [done|].
          by destruct Hc as [?|?]. }
        exists body. inv Hall. split_and!; [done|by left|].
        destruct Hp as [[= _ ->]|[= _ ->]]; [by left|by right].
    + rewrite !andb_true_iff, !bool_decide_eq_true. split.
      * intros [[-> ->] ->]. exists []. split_and!;
          [constructor|by left|by right].
      * intros (body & Hall & Hseen & Hp). destruct body as [|c' body].
        { destruct Hseen as [->|?]; [|done].
          by destruct Hp as [?|[= -> ->]]. }
        inv Hall. by destruct Hp as [[= -> _]|[= -> _]].
Qed.

Lemma valid_pattern_iff pattern :
  valid_pattern pattern = true ↔
  ∃ body, body ≠ [] ∧ Forall (λ c, c = X ∨ c = N) body ∧
          (pattern = body ∨ pattern = body ++ [newline]).
Proof.
  unfold valid_pattern. rewrite valid_pattern_go_iff.
  split; intros (body & H1 & H2 & H3); exists body.
  - by destruct H2.
  - split_and!; [done|by right|done].
Qed.

(** The end of the last match, and what comes after it. *)
Lemma finditer_X_last pos start pattern :
  match last (finditer_X pos start pattern) with
  | Some (_, e) =>
      (∀ j, e ≤ pos + j → pattern !! j ≠ Some X) ∧
      e ≤ pos + length pattern ∧
      ((∃ j, e = S (pos + j) ∧ pattern !! j = Some X) ∨
       (e = pos ∧ is_Some start))
  | None => start = None ∧ X ∉ pattern
  end.
Proof.
  revert pos start. induction pattern as [|c rest IH]; intros pos start.
  - destruct start as [st|]; simpl.
    + split_and!; [done|lia|right; eauto].
    + split; [done|apply not_elem_of_nil].
  - cbn [finditer_X]. destruct (decide (c = X)) as [->|Hc].
    + specialize (IH (S pos) (Some (default pos start))).
      destruct (last _) as [[a e]|]; [|by destruct IH].
      destruct IH as (Hafter & Hle & Hend).
      assert (S pos ≤ e) as Hpos by (destruct Hend as [(j & -> & _)|[-> _]]; lia).
      split_and!.
      * intros [|j] Hj; [lia|]. simpl. apply Hafter. lia.
      * simpl. lia.
      * left. destruct Hend as [(j & -> & Hj)|[-> _]].
        -- exists (S j). split; [lia|done].
        -- exists 0. split; [lia|done].
    + assert (match last (finditer_X (S pos) None rest) with
              | Some (_, e) =>
                  (∀ j, e ≤ pos + j → (c :: rest) !! j ≠ Some X) ∧
                  e ≤ pos + length (c :: rest) ∧
                  ((∃ j, e = S (pos + j) ∧ (c :: rest) !! j = Some X) ∨
                   (e = pos ∧ is_Some start))
              | None => X ∉ rest
              end) as Hrest.
      { specialize (IH (S pos) None).
        destruct (last _) as [[a e]|]; [|by destruct IH].
        destruct IH as (Hafter & Hle & Hend).
        destruct Hend as [(j & -> & Hj)|[_ [? [=]]]].
        split_and!.
        - intros [|j'] Hj'; [simpl; congruence|]. simpl. apply Hafter. lia.
        - simpl. lia.
        - left. exists (S j). split; [lia|done]. }
      destruct start as [st|].
      * rewrite last_cons.
        destruct (last (finditer_X (S pos) None rest)) as [[a e]|]; [done|].
        split_and!.
        -- intros [|j] _; [simpl; congruence|]. simpl.
           intros Hj%list_elem_of_lookup_2. done.
        -- simpl. lia.
        -- right. eauto.
      * destruct (last (finditer_X (S pos) None rest)) as [[a e]|]; [done|].
        split; [done|]. intros [?|?]%elem_of_cons; [congruence|done].
Qed.

Lemma min_readlen_last_X pattern :
  (X ∈ pattern →
     ∃ m, min_readlen (barcode_positions pattern) = inr m ∧
          1 ≤ m ≤ length pattern ∧
          pattern !! (m - 1) = Some X ∧
          ∀ j, m ≤ j → pattern !! j ≠ Some X) ∧
  (X ∉ pattern → min_readlen (barcode_positions pattern) = inl IndexError).
Proof.
  unfold min_readlen, barcode_positions.
  pose proof (finditer_X_last 0 None pattern) as Hlast.
  destruct (last (finditer_X 0 None pattern)) as [[a e]|].
  - destruct Hlast as (Hafter & Hle & [(j & -> & Hj)|[_ [? [=]]]]). split.
    + intros _. exists (S j). split_and!; try done; try (simpl in *; lia).
      by rewrite Nat.sub_1_r.
    + intros Hno. destruct Hno. by apply list_elem_of_lookup_2 in Hj.
  - destruct Hlast as [_ Hno]. split; [done|]. done.
Qed.


(** X11. The last position of a barcode nucleotide, which the script takes
    from the last match, is one more than the index of the last [X] of
    the pattern: there is an [X] just before it and none from it on, and
    it is within the pattern.  A pattern without [X] has no match, and
    taking the last one is an [IndexError]. *)
Theorem extract_bcs_min_readlen pattern :
  (X ∈ pattern →
     ∃ m, min_readlen (barcode_positions pattern) = inr m ∧
          1 ≤ m ≤ length pattern ∧
          pattern !! (m - 1) = Some X ∧
          ∀ j, m ≤ j → pattern !! j ≠ Some X) ∧
  (X ∉ pattern → min_readlen (barcode_positions pattern) = inl IndexError).
Proof. apply min_readlen_last_X. Qed.

Lemma extract_bcs_min_readlen_witness :
  ∃ m, min_readlen (barcode_positions (list_ascii_of_string "XXXNNXXXN")) =
         inr m ∧
       1 ≤ m ≤ length (list_ascii_of_string "XXXNNXXXN") ∧
       list_ascii_of_string "XXXNNXXXN" !! (m - 1) = Some X ∧
       ∀ j, m ≤ j → list_ascii_of_string "XXXNNXXXN" !! j ≠ Some X.
Proof.
  apply (extract_bcs_min_readlen (list_ascii_of_string "XXXNNXXXN")).
  apply (bool_decide_unpack _). by vm_compute.
Defined.

Lemma not_valid_ne pattern : not_valid pattern ≠ no_barcode_position pattern.
Proof.
  unfold not_valid, no_barcode_position.
  intros Heq%(inj (app _))%(inj (app _)). done.
Qed.

(** X12. The script raises a [ValueError] that says the pattern is not
    valid unless the pattern is one or more of the characters [X] and [N],
    which a single newline may follow; it raises a [ValueError] that says
    there is no barcode position when such a pattern has no [X]; for any
    other pattern it raises nothing, whatever the reads. *)
Theorem extract_bcs_pattern_errors pattern (out_bc_fasta : bool)
    (reads : list (str * str * str)) :
  (main pattern out_bc_fasta reads = inl (ValueError (not_valid pattern)) ↔
     ¬ ∃ body, body ≠ [] ∧ Forall (λ c, c = X ∨ c = N) body ∧
               (pattern = body ∨ pattern = body ++ [newline])) ∧
  (main pattern out_bc_fasta reads =
     inl (ValueError (no_barcode_position pattern)) ↔
     valid_pattern pattern = true ∧ X ∉ pattern) ∧
  (valid_pattern pattern = true ∧ X ∈ pattern ↔
     ∃ out, main pattern out_bc_fasta reads = inr out).
Proof.
  rewrite <-valid_pattern_iff. unfold main, has_bcpos_pattern.
  destruct (valid_pattern pattern) eqn:Hvalid; simpl.
  - destruct (decide (X ∈ pattern)) as [HX|HX].
    + rewrite bool_decide_eq_true_2 by done. simpl.
      destruct (proj1 (min_readlen_last_X pattern) HX) as (m & -> & _).
      destruct (seq_positions (barcode_positions pattern)) as [sp l].
      split_and!.
      * split; [done|]. intros Hn. by destruct Hn.
      * split; [done|]. by intros [_ ?].
      * split; [eauto|done].
    + rewrite bool_decide_eq_false_2 by done. simpl. split_and!.
      * split; [|intros Hn; by destruct Hn].
        intros Heq. destruct (not_valid_ne pattern). congruence.
      * done.
      * split; [by intros [_ ?]|]. by intros [out ?].
  - split_and!.
    + split; [|done]. by intros _ [=].
    + split; [|by intros [[=] _]].
      intros Heq. destruct (not_valid_ne pattern). congruence.
    + split; [by intros [[=] _]|]. by intros [out ?].
Qed.

(** ** The barcode and the rest of a read *)

Lemma at_X_cons_X pattern s :
  at_X (X :: pattern) s = take 1 s ++ at_X pattern (drop 1 s).
Proof.
  unfold at_X. destruct s as [|x s].
  - simpl. by rewrite zip_with_nil_r.
  - cbn [zip zip_with]. by rewrite filter_cons, decide_True.
Qed.

Lemma at_X_cons_other (c : ascii) pattern s :
  c ≠ X → at_X (c :: pattern) s = at_X pattern (drop 1 s).
Proof.
  intros Hc. unfold at_X. destruct s as [|x s].
  - simpl. by rewrite zip_with_nil_r.
  - cbn [zip zip_with]. by rewrite filter_cons, decide_False.
Qed.

Lemma not_at_X_cons_X pattern s :
  not_at_X (X :: pattern) s = not_at_X pattern (drop 1 s).
Proof.
  unfold not_at_X. destruct s as [|x s].
  - simpl. by rewrite zip_with_nil_r, !drop_nil.
  - cbn [zip zip_with]. rewrite filter_cons, decide_False; [done|].
    intros Hne. by apply Hne.
Qed.

Lemma not_at_X_cons_other (c : ascii) pattern s :
  c ≠ X → not_at_X (c :: pattern) s = take 1 s ++ not_at_X pattern (drop 1 s).
Proof.
  intros Hc. unfold not_at_X. destruct s as [|x s].
  - simpl. by rewrite zip_with_nil_r, !drop_nil.
  - cbn [zip zip_with]. by rewrite filter_cons, decide_True.
Qed.

Lemma slice_S (a b : nat) s :
  a ≤ b → slice a (S b) s = slice a b s ++ take 1 (drop b s).
Proof.
  intros Hab. unfold slice.
  replace (S b - a) with ((b - a) + 1) by lia.
  rewrite <-take_take_drop, drop_drop. do 3 f_equal. lia.
Qed.

Lemma slice_same (a : nat) s : slice a a s = [].
Proof. unfold slice. by rewrite Nat.sub_diag. Qed.

Lemma barcode_finditer pattern pos start s :
  (∀ st, start = Some st → st ≤ pos) →
  concat ((λ bc, slice bc.1 bc.2 s) <$> finditer_X pos start pattern) =
  match start with Some st => slice st pos s | None => [] end ++
  at_X pattern (drop pos s).
Proof.
  revert pos start. induction pattern as [|c rest IH]; intros pos start Hst.
  - unfold at_X. destruct start as [st|]; simpl; by rewrite ?app_nil_r.
  - cbn [finditer_X]. destruct (decide (c = X)) as [->|Hc].
    + rewrite IH, at_X_cons_X, drop_drop, Nat.add_1_r.
      * destruct start as [st|]; simpl.
        -- by rewrite slice_S, <-app_assoc by auto.
        -- by rewrite slice_S, slice_same by done.
      * intros st [= <-]. destruct start as [st'|]; simpl; [|lia].
        specialize (Hst st' eq_refl). lia.
    + rewrite at_X_cons_other, drop_drop, Nat.add_1_r by done.
      destruct start as [st|].
      * rewrite fmap_cons. simpl. by rewrite IH.
      * by rewrite IH.
Qed.

Lemma new_seq_finditer pattern pos start (acc : list (nat * nat))
    (last_seq_start : nat) s :
  last_seq_start ≤ default pos start → default pos start ≤ pos →
  let st := foldl (λ st bc, (st.1 ++ [(st.2, bc.1)], bc.2))
              (acc, last_seq_start) (finditer_X pos start pattern) in
  concat ((λ sp, slice sp.1 sp.2 s) <$> st.1) ++ drop st.2 s =
  concat ((λ sp, slice sp.1 sp.2 s) <$> acc) ++
  slice last_seq_start (default pos start) s ++
  not_at_X pattern (drop pos s).
Proof.
  revert pos start acc last_seq_start.
  induction pattern as [|c rest IH]; intros pos start acc l Hl Hpos; simpl.
  - unfold not_at_X. simpl. destruct start as [st|]; simpl in *.
    + rewrite fmap_app, concat_app. simpl. by rewrite !app_nil_r, <-app_assoc.
    + f_equal. unfold slice.
      rewrite <-(take_drop (pos - l) (drop l s)) at 1.
      f_equal. rewrite drop_drop.
      by replace (l + (pos - l)) with pos by lia.
  - destruct (decide (c = X)) as [->|Hc].
    + rewrite not_at_X_cons_X, drop_drop, Nat.add_1_r.
      apply (IH (S pos) (Some (default pos start))); simpl; [done|lia].
    + rewrite not_at_X_cons_other, drop_drop, Nat.add_1_r by done.
      destruct start as [st|]; simpl in *.
      * rewrite (IH (S pos) None); simpl; [|lia..].
        rewrite fmap_app, concat_app. simpl.
        rewrite app_nil_r, <-!app_assoc. do 2 f_equal.
        by rewrite slice_S, slice_same by done.
      * rewrite (IH (S pos) None); simpl; [|lia..].
        f_equal. by rewrite slice_S, <-app_assoc by done.
Qed.

Lemma extract_eq pattern (m : nat) seq qual :
  extract (barcode_positions pattern)
    (seq_positions (barcode_positions pattern)).1
    (seq_positions (barcode_positions pattern)).2 m seq qual =
  if decide (length seq < m) then None
  else if decide (length (not_at_X pattern seq) = 0) then None
  else Some (at_X pattern seq, not_at_X pattern seq, not_at_X pattern qual).
Proof.
  assert (∀ s, concat (((λ sp, slice sp.1 sp.2 s) <$>
                          (seq_positions (barcode_positions pattern)).1) ++
                       [slice_from (seq_positions
                                      (barcode_positions pattern)).2 s]) =
               not_at_X pattern s) as Hrest.
  { intros s. unfold barcode_positions, seq_positions, slice_from.
    rewrite concat_app. simpl. rewrite app_nil_r.
    pose proof (new_seq_finditer pattern 0 None [] 0 s) as Hs.
    simpl in Hs. by rewrite Hs. }
  unfold extract. rewrite !Hrest.
  unfold barcode_positions at 1.
  by rewrite (barcode_finditer pattern 0 None seq).
Qed.

(** X13. For every read that is not skipped, the barcode is made of the
    nucleotides of the read that stand at the [X] positions of the
    pattern, in the order of the read; the new sequence is made of the
    other nucleotides of the read, those at the [N] positions and all that
    come after the pattern; and the new quality is cut out of the quality
    text at the positions of the new sequence. *)
Theorem extract_bcs_by_position pattern (m : nat) seq qual
    (barcode new_seq new_qual : str) :
  extract (barcode_positions pattern)
    (seq_positions (barcode_positions pattern)).1
    (seq_positions (barcode_positions pattern)).2 m seq qual =
    Some (barcode, new_seq, new_qual) →
  barcode = at_X pattern seq ∧
  new_seq = not_at_X pattern seq ∧
  new_qual = not_at_X pattern qual.
Proof.
  rewrite extract_eq. case_decide; [done|]. case_decide; [done|].
  by intros [= <- <- <-].
Qed.

Lemma extract_bcs_by_position_witness :
  list_ascii_of_string "ACGCGT" =
    at_X (list_ascii_of_string "XXXNNXXX")
      (list_ascii_of_string "ACGTACGTTTGG") ∧
  list_ascii_of_string "TATTGG" =
    not_at_X (list_ascii_of_string "XXXNNXXX")
      (list_ascii_of_string "ACGTACGTTTGG") ∧
  list_ascii_of_string "IJKKKK" =
    not_at_X (list_ascii_of_string "XXXNNXXX")
      (list_ascii_of_string "IIIIJJJJKKKK").
Proof.
  apply (extract_bcs_by_position (list_ascii_of_string "XXXNNXXX") 8).
  reflexivity.
Defined.

Lemma at_X_not_at_X_length pattern s :
  length (at_X pattern s) + length (not_at_X pattern s) = length s.
Proof.
  revert s. induction pattern as [|c rest IH]; intros s.
  - unfold at_X, not_at_X. by simpl.
  - destruct (decide (c = X)) as [->|Hc].
    + rewrite at_X_cons_X, not_at_X_cons_X, length_app, <-Nat.add_assoc, IH.
      by rewrite <-length_app, take_drop.
    + rewrite at_X_cons_other, not_at_X_cons_other, length_app by done.
      rewrite Nat.add_assoc, (Nat.add_comm _ (length (take 1 s))).
      rewrite <-Nat.add_assoc, IH. by rewrite <-length_app, take_drop.
Qed.

Lemma at_X_not_at_X_Permutation pattern s :
  at_X pattern s ++ not_at_X pattern s ≡ₚ s.
Proof.
  revert s. induction pattern as [|c rest IH]; intros s.
  - unfold at_X, not_at_X. by simpl.
  - destruct (decide (c = X)) as [->|Hc].
    + rewrite at_X_cons_X, not_at_X_cons_X, <-app_assoc, IH.
      by rewrite take_drop.
    + rewrite at_X_cons_other, not_at_X_cons_other by done.
      rewrite Permutation_app_swap_app, IH. by rewrite take_drop.
Qed.

Lemma at_X_length_covered pattern s :
  (∀ j, length s ≤ j → pattern !! j ≠ Some X) →
  length (at_X pattern s) = length (filter (λ c, c = X) pattern).
Proof.
  revert s. induction pattern as [|c rest IH]; intros s Hcov; [done|].
  assert (∀ j, length (drop 1 s) ≤ j → rest !! j ≠ Some X) as Hrest.
  { intros j Hj. apply (Hcov (S j)). rewrite length_drop in Hj. lia. }
  rewrite filter_cons. destruct (decide (c = X)) as [->|Hc].
  - rewrite at_X_cons_X, length_app, IH by done.
    destruct s as [|x s]; [|done]. by destruct (Hcov 0).
  - by rewrite at_X_cons_other, IH.
Qed.

Lemma at_X_length_ext pattern s1 s2 :
  length s1 = length s2 → length (at_X pattern s1) = length (at_X pattern s2).
Proof.
  revert s1 s2. induction pattern as [|c rest IH]; intros s1 s2 Hlen; [done|].
  assert (length (drop 1 s1) = length (drop 1 s2)) as Hdrop
    by (rewrite !length_drop; lia).
  destruct (decide (c = X)) as [->|Hc].
  - rewrite !at_X_cons_X, !length_app, (IH _ _ Hdrop), !length_take. lia.
  - rewrite !at_X_cons_other by done. by apply IH.
Qed.

(** X14. A read that is written loses no nucleotide and gains none: its
    barcode and its new sequence together hold the nucleotides of the
    read, each as often as the read; the barcode has one nucleotide for
    each [X] of the pattern, whatever the read; and when the quality text
    is as long as the sequence, the new quality is as long as the new
    sequence. *)
Theorem extract_bcs_lossless pattern (m : nat) seq qual
    (barcode new_seq new_qual : str) :
  min_readlen (barcode_positions pattern) = inr m →
  extract (barcode_positions pattern)
    (seq_positions (barcode_positions pattern)).1
    (seq_positions (barcode_positions pattern)).2 m seq qual =
    Some (barcode, new_seq, new_qual) →
  barcode ++ new_seq ≡ₚ seq ∧
  length barcode = length (filter (λ c, c = X) pattern) ∧
  length barcode + length new_seq = length seq ∧
  (length qual = length seq → length new_qual = length new_seq).
Proof.
  intros Hm. rewrite extract_eq.
  case_decide as Hlen; [done|]. case_decide; [done|].
  intros [= <- <- <-]. split_and!.
  - apply at_X_not_at_X_Permutation.
  - apply at_X_length_covered. intros j Hj.
    destruct (decide (X ∈ pattern)) as [HX|HX].
    + destruct (proj1 (min_readlen_last_X pattern) HX)
        as (m' & Hm' & _ & _ & Hafter).
      rewrite Hm in Hm'. simplify_eq. apply Hafter. lia.
    + intros Hj'%list_elem_of_lookup_2. done.
  - apply at_X_not_at_X_length.
  - intros Hqual.
    pose proof (at_X_not_at_X_length pattern seq).
    pose proof (at_X_not_at_X_length pattern qual).
    pose proof (at_X_length_ext pattern qual seq Hqual). lia.
Qed.

Lemma extract_bcs_lossless_witness :
  list_ascii_of_string "ACGCGT" ++ list_ascii_of_string "TATTGG" ≡ₚ
    list_ascii_of_string "ACGTACGTTTGG" ∧
  length (list_ascii_of_string "ACGCGT") =
    length (filter (λ c, c = X) (list_ascii_of_string "XXXNNXXX")) ∧
  length (list_ascii_of_string "ACGCGT") +
    length (list_ascii_of_string "TATTGG") =
    length (list_ascii_of_string "ACGTACGTTTGG") ∧
  (length (list_ascii_of_string "IIIIJJJJKKKK") =
     length (list_ascii_of_string "ACGTACGTTTGG") →
   length (list_ascii_of_string "IJKKKK") =
     length (list_ascii_of_string "TATTGG")).
Proof.
  apply (extract_bcs_lossless (list_ascii_of_string "XXXNNXXX") 8);
    reflexivity.
Defined.

Lemma extract_is_Some pattern (m : nat) seq qual :
  min_readlen (barcode_positions pattern) = inr m →
  is_Some (extract (barcode_positions pattern)
             (seq_positions (barcode_positions pattern)).1
             (seq_positions (barcode_positions pattern)).2 m seq qual) ↔
  m ≤ length seq ∧ length (filter (λ c, c = X) pattern) < length seq.
Proof.
  intros Hm. rewrite extract_eq.
  pose proof (at_X_not_at_X_length pattern seq) as Hsum.
  case_decide as Hlen.
  { split; [by intros [? [=]]|lia]. }
  assert (length (at_X pattern seq) = length (filter (λ c, c = X) pattern))
    as Hbc.
  { apply at_X_length_covered. intros j Hj.
    destruct (decide (X ∈ pattern)) as [HX|HX].
    - destruct (proj1 (min_readlen_last_X pattern) HX)
        as (m' & Hm' & _ & _ & Hafter).
      rewrite Hm in Hm'. simplify_eq. apply Hafter. lia.
    - intros Hj'%list_elem_of_lookup_2. done. }
  case_decide as Hrest.
  - split; [by intros [? [=]]|lia].
  - split; [lia|eauto].
Qed.

(** X15. A read is written exactly when it reaches the last [X] of the
    pattern and is longer than the number of [X] of the pattern, so that
    something is left of it; any other read is skipped. *)
Theorem extract_bcs_written pattern (m : nat) seq qual :
  min_readlen (barcode_positions pattern) = inr m →
  is_Some (extract (barcode_positions pattern)
             (seq_positions (barcode_positions pattern)).1
             (seq_positions (barcode_positions pattern)).2 m seq qual) ↔
  m ≤ length seq ∧ length (filter (λ c, c = X) pattern) < length seq.
Proof. apply extract_is_Some. Qed.

Lemma extract_bcs_written_witness :
  is_Some (extract (barcode_positions (list_ascii_of_string "XXXNNXXX"))
             (seq_positions
                (barcode_positions (list_ascii_of_string "XXXNNXXX"))).1
             (seq_positions
                (barcode_positions (list_ascii_of_string "XXXNNXXX"))).2 8
             (list_ascii_of_string "ACGTACGTTTGG")
             (list_ascii_of_string "IIIIJJJJKKKK")) ↔
  8 ≤ length (list_ascii_of_string "ACGTACGTTTGG") ∧
  length (filter (λ c, c = X) (list_ascii_of_string "XXXNNXXX")) <
    length (list_ascii_of_string "ACGTACGTTTGG").
Proof. apply extract_bcs_written. reflexivity. Defined.

(** ** The two outputs *)

Lemma extract_cases pattern (m : nat) seq qual :
  min_readlen (barcode_positions pattern) = inr m →
  extract (barcode_positions pattern)
    (seq_positions (barcode_positions pattern)).1
    (seq_positions (barcode_positions pattern)).2 m seq qual =
  if decide (m ≤ length seq ∧
             length (filter (λ c, c = X) pattern) < length seq)
  then Some (at_X pattern seq, not_at_X pattern seq, not_at_X pattern qual)
  else None.
Proof.
  intros Hm. pose proof (extract_is_Some pattern m seq qual Hm) as Hsome.
  rewrite extract_eq in *.
  destruct (decide (m ≤ length seq ∧ _)) as [Hc|Hc].
  - apply Hsome in Hc as [r Hr]. revert Hr. by repeat case_decide.
  - repeat case_decide; try done. destruct Hc. apply Hsome. eauto.
Qed.

(** X16. For a pattern that is accepted, the FASTQ output is made of the
    records of the reads that are written, in the order of the input, each
    with the barcode added to its header after a blank; the FASTA output,
    when it is asked for, has the header and the barcode of exactly those
    reads in the same order; and asking for it does not change the FASTQ
    output. *)
Theorem extract_bcs_outputs pattern (m : nat) (reads : list (str * str * str)) :
  valid_pattern pattern = true →
  min_readlen (barcode_positions pattern) = inr m →
  let written :=
    omap (λ read : str * str * str,
            if decide (m ≤ length read.1.2 ∧
                       length (filter (λ c, c = X) pattern) < length read.1.2)
            then Some (read.1.1, at_X pattern read.1.2,
                       not_at_X pattern read.1.2, not_at_X pattern read.2)
            else None) reads in
  let fastq :=
    concat ((λ w : str * str * str * str,
               fastq_record w.1.1.1 w.1.1.2 w.1.2 w.2) <$> written) in
  let fasta :=
    concat ((λ w : str * str * str * str,
               fasta_record w.1.1.1 w.1.1.2) <$> written) in
  main pattern true reads = inr (fastq, Some fasta) ∧
  main pattern false reads = inr (fastq, None).
Proof.
  intros Hvalid Hm written fastq fasta.
  assert (X ∈ pattern) as HX.
  { destruct (decide (X ∈ pattern)) as [|HX]; [done|].
    apply (proj2 (min_readlen_last_X pattern)) in HX. congruence. }
  unfold main, has_bcpos_pattern.
  rewrite Hvalid, bool_decide_eq_true_2, Hm by done.
  cbn [negb].
  pose proof (λ seq qual, extract_cases pattern m seq qual Hm) as Hex.
  destruct (seq_positions (barcode_positions pattern)) as [sp l].
  cbn [fst snd] in Hex. subst written fastq fasta.
  split; f_equal.
  - match goal with
    | |- foldl ?f _ reads = (?fq, Some ?fa) =>
        enough (∀ o1 o2, foldl f (o1, Some o2) reads =
                         (o1 ++ fq, Some (o2 ++ fa))) as Hgen
          by (by rewrite Hgen)
    end.
    induction reads as [|[[header seq] qual] reads IH]; intros o1 o2.
    + by rewrite !app_nil_r.
    + cbn [foldl omap list_omap fst snd]. rewrite Hex.
      case_decide.
      * cbn [fst snd default]. rewrite IH. cbn [fmap list_fmap concat fst snd].
        by rewrite !app_assoc.
      * by rewrite IH.
  - match goal with
    | |- foldl ?f _ reads = (?fq, None) =>
        enough (∀ o1, foldl f (o1, None) reads = (o1 ++ fq, None)) as Hgen
          by (by rewrite Hgen)
    end.
    induction reads as [|[[header seq] qual] reads IH]; intros o1.
    + by rewrite !app_nil_r.
    + cbn [foldl omap list_omap fst snd]. rewrite Hex.
      case_decide.
      * cbn [fst snd]. rewrite IH. cbn [fmap list_fmap concat fst snd].
        by rewrite !app_assoc.
      * by rewrite IH.
Qed.

Lemma extract_bcs_outputs_witness :
  main (list_ascii_of_string "XXXNNXXX") true
    [(list_ascii_of_string "read1", list_ascii_of_string "ACGTACGTTTGG",
      list_ascii_of_string "IIIIJJJJKKKK");
     (list_ascii_of_string "read2", list_ascii_of_string "ACGT",
      list_ascii_of_string "IIII")] =
  inr (fastq_record (list_ascii_of_string "read1")
         (list_ascii_of_string "ACGCGT") (list_ascii_of_string "TATTGG")
         (list_ascii_of_string "IJKKKK"),
       Some (fasta_record (list_ascii_of_string "read1")
               (list_ascii_of_string "ACGCGT"))).
Proof.
  apply (extract_bcs_outputs (list_ascii_of_string "XXXNNXXX") 8
    [(list_ascii_of_string "read1", list_ascii_of_string "ACGTACGTTTGG",
      list_ascii_of_string "IIIIJJJJKKKK");
     (list_ascii_of_string "read2", list_ascii_of_string "ACGT",
      list_ascii_of_string "IIII")]); reflexivity.
Defined.

End extract_bcs.

